(** * PolyglotDB: annotation hierarchy and graph-projection pipeline

    A shallow embedding of [annograph/io/helper.py] (Attribute,
    AnnotationType, DiscourseData, the transcription tokenizer and
    [data_to_discourse]) and of [CorpusContext.add_discourse] in
    [polyglotdb/corpus.py], with the properties of the specification stated
    and settled against it.

    Conventions of the embedding.
    - A Python [str] is a [list ascii] (code points below 256); identifiers
      that the code only compares (tier names, keyword names) are [string].
    - A Python exception is a value of [exn]; a call that may raise returns
      [res A].
    - Finite numbers (Python [int] and finite [float]) are rationals [Q]: the
      code only compares them, and Python compares int and float exactly.
      [nan] and the infinities are outside the model.
    - [float(s)] on a string is a builtin of the language, taken as a
      parameter [py_float]. *)

From Stdlib Require Import List Ascii Bool Arith ZArith QArith Qminmax Lia Lqa Sorted.
From stdpp Require Import base gmap strings.
Import ListNotations.

Local Open Scope list_scope.

(** ** Strings, exceptions and results *)

Abbreviation str := (list ascii).

(** A string literal as a Python [str]. *)
Definition s_ (x : string) : str := String.list_ascii_of_string x.

Definition ascii_eqb (a b : ascii) : bool := Ascii.eqb a b.

Fixpoint str_eqb (a b : str) : bool :=
  match a, b with
  | [], [] => true
  | x :: a', y :: b' => ascii_eqb x y && str_eqb a' b'
  | _, _ => false
  end.

(** [d] is a prefix of [s]. *)
Fixpoint is_prefix (d s : str) : bool :=
  match d, s with
  | [], _ => true
  | x :: d', y :: s' => ascii_eqb x y && is_prefix d' s'
  | _ :: _, [] => false
  end.

(** [d in s] on strings: [d] occurs in [s]. *)
Fixpoint contains (d s : str) : bool :=
  is_prefix d s || match s with [] => false | _ :: s' => contains d s' end.

(** [x in l] on a list of strings. *)
Definition str_in (x : str) (l : list str) : bool := existsb (str_eqb x) l.

(** [enumerate(l)], from index [i]. *)
Fixpoint enumerate_from {A} (i : nat) (l : list A) : list (nat * A) :=
  match l with
  | [] => []
  | x :: l' => (i, x) :: enumerate_from (S i) l'
  end.

Definition enumerate {A} (l : list A) : list (nat * A) := enumerate_from 0 l.

Inductive exn : Type :=
| TypeError (msg : string)
| ValueError
| KeyError (key : str)
| IndexError
| NameError (name : string)
| AttributeError (attr : string)
| RecursionError
| NotModelled (what : string).

Inductive res (A : Type) : Type :=
| Ok (a : A)
| Raise (e : exn).
Arguments Ok {A} a.
Arguments Raise {A} e.

(** Sequencing of calls that may raise: [x ← m; k] runs [k] only when [m]
    returned. *)
#[global] Instance res_bind : MBind res := fun A B k m =>
  match m with
  | Ok a => k a
  | Raise e => Raise e
  end.

#[global] Instance res_ret : MRet res := fun A a => Ok a.

(** The standard-library modules that [helper.py] imports
    ([import re], [import os], [import string], [import logging]).  A
    reference to any other module name is an unbound global. *)
Definition imported_modules : list string :=
  ["re"; "os"; "string"; "logging"]%string.

Definition module_ref (m : string) : res unit :=
  if existsb (String.eqb m) imported_modules then Ok tt else Raise (NameError m).

(** The global names of [helper.py]: the modules and the exception class it
    imports, and the constants, classes and functions it defines.  A
    reference to any other name that is no builtin is an unbound global. *)
Definition module_globals : list string :=
  ["re"; "os"; "string"; "logging"; "DelimiterError"; "NUMBER_CHARACTERS";
   "Attribute"; "BaseAnnotation"; "Annotation"; "AnnotationType"; "DiscourseData";
   "get_corpora_list"; "corpus_name_to_path"; "compile_digraphs"; "inspect_directory";
   "parse_numbers"; "parse_transcription"; "text_to_lines"; "find_wav_path";
   "log_annotation_types"; "data_to_discourse"]%string.

Definition global_ref (n : string) : res unit :=
  if existsb (String.eqb n) module_globals then Ok tt else Raise (NameError n).

(** ** Attribute *)

(** [Attribute.ATT_TYPES], in its order. *)
Inductive att_type : Type := spelling | tier | numeric | factor.

Definition ATT_TYPES : list att_type := [spelling; tier; numeric; factor].

Definition att_type_eqb (a b : att_type) : bool :=
  match a, b with
  | spelling, spelling | tier, tier | numeric, numeric | factor, factor => true
  | _, _ => false
  end.

(** The values an attribute sees: [None], a number, a string, or a list
    (a transcription: the labels of its segments). *)
Inductive value : Type :=
| VNone
| VNum (q : Q)
| VStr (s : str)
| VList (l : list str).

(** [isinstance(v, (int, float))] and [isinstance(v, str)]. *)
Definition is_number (v : value) : bool :=
  match v with VNum _ => true | _ => false end.

Definition is_str (v : value) : bool :=
  match v with VStr _ => true | _ => false end.

(** Truth value of [if v:]. *)
Definition truthy (v : value) : bool :=
  match v with
  | VNone => false
  | VNum q => negb (Qeq_bool q 0)
  | VStr s => negb (str_eqb s [])
  | VList l => match l with [] => false | _ => true end
  end.

(** A list has no hash: it cannot be a member of a [set]. *)
Definition hashable (v : value) : bool :=
  match v with VList _ => false | _ => true end.

(** [==] on hashable values. *)
Definition value_eqb (a b : value) : bool :=
  match a, b with
  | VNone, VNone => true
  | VNum p, VNum q => Qeq_bool p q
  | VStr s, VStr t => str_eqb s t
  | _, _ => false
  end.

(** [Attribute._range]: [None], the two-element list [[lo, hi]] of a numeric
    attribute, or a [set] (its members in insertion order, without
    duplicates). *)
Inductive range : Type :=
| RNone
| RPair (lo hi : Q)
| RSet (elems : list value).

(** [set.add]. *)
Definition set_add (v : value) (l : list value) : list value :=
  if existsb (value_eqb v) l then l else l ++ [v].

Record Attribute : Type := mkAttribute {
  name : str;
  att_kind : att_type;
  _display_name : option str;
  _default_value : value;
  _range : range;
  _delim : option str
}.

Definition set_range (a : Attribute) (r : range) : Attribute :=
  mkAttribute (name a) (att_kind a) (_display_name a) (_default_value a) r (_delim a).

Definition set_kind (a : Attribute) (t : att_type) : Attribute :=
  mkAttribute (name a) t (_display_name a) (_default_value a) (_range a) (_delim a).

Definition set_default (a : Attribute) (v : value) : Attribute :=
  mkAttribute (name a) (att_kind a) (_display_name a) v (_range a) (_delim a).

(** [set([v])]. *)
Definition singleton_set (v : value) : res range :=
  if hashable v then Ok (RSet [v]) else Raise (TypeError "unhashable type").

(** [Attribute.__init__]. *)
Definition Attribute_init (n : str) (t : att_type) (display : option str)
    (default : value) : res Attribute :=
  match t with
  | numeric =>
      Ok (mkAttribute n t display (if is_number default then default else VNum 0)
            (RPair 0 0) None)
  | factor =>
      let dv := if is_str default then default else VStr [] in
      r ← (if truthy default then singleton_set default else Ok (RSet []));
      Ok (mkAttribute n t display dv r None)
  | spelling =>
      Ok (mkAttribute n t display (if is_str default then default else VStr [])
            RNone None)
  | tier =>
      Ok (mkAttribute n t display
            (match default with VNone => VList [] | _ => default end)
            (RSet []) None)
  end.

(** The [default_value] setter:
    [self._default_value = value; self._range = set([value])]. *)
Definition default_value_setter (a : Attribute) (v : value) : res Attribute :=
  let a1 := set_default a v in
  r ← singleton_set v;
  Ok (set_range a1 r).

(** [x < y] on numbers. *)
Definition Qltb (x y : Q) : bool :=
  match Qcompare x y with Lt => true | _ => false end.

(** [self._range[0]], [self._range[1]]: only a list can be indexed. *)
Definition range_bounds (r : range) : res (Q * Q) :=
  match r with
  | RPair lo hi => Ok (lo, hi)
  | RSet _ => Raise (TypeError "'set' object is not subscriptable")
  | RNone => Raise (TypeError "'NoneType' object is not subscriptable")
  end.

(** [[x for x in value]]: a string yields its characters, a list its
    members; [None] is never iterated (the method has returned) and a number
    is not iterable. *)
Definition iter_value (v : value) : res (list value) :=
  match v with
  | VStr s => Ok (map (fun c => VStr [c]) s)
  | VList l => Ok (map VStr l)
  | _ => Raise (TypeError "object is not iterable")
  end.

Section PyFloat.

(** [float(s)] on a string: [Some q] when [s] parses as a number, [None]
    when it raises [ValueError]. *)
Variable py_float : str -> option Q.

(** The numeric branch of [update_range], on a number. *)
Definition widen (a : Attribute) (x : Q) : res Attribute :=
  b ← range_bounds (_range a);
  let '(lo, hi) := b in
  if Qltb x lo then Ok (set_range a (RPair x hi))
  else if Qltb hi x then Ok (set_range a (RPair lo x))
  else Ok a.

(** [Attribute.update_range]. *)
Definition update_range (a : Attribute) (v : value) : res Attribute :=
  match v with
  | VNone => Ok a
  | _ =>
    match att_kind a with
    | numeric =>
        match v with
        | VStr s =>
            match py_float s with
            | Some x => widen a x
            | None => Ok (set_range (set_kind a spelling) RNone)
            end
        | VNum x => widen a x
        | _ => b ← range_bounds (_range a);
               Raise (TypeError "'<' not supported")
        end
    | factor =>
        match _range a with
        | RSet l => if hashable v then Ok (set_range a (RSet (set_add v l)))
                    else Raise (TypeError "unhashable type")
        | RPair _ _ => Raise (AttributeError "add")
        | RNone => Raise (AttributeError "add")
        end
    | tier =>
        let r := match _range a with
                 | RPair lo hi => RSet (set_add (VNum hi) [VNum lo])
                 | r => r
                 end in
        match r with
        | RSet l =>
            xs ← iter_value v;
            Ok (set_range a (RSet (fold_left (fun acc x => set_add x acc) xs l)))
        | _ => Raise (AttributeError "update")
        end
    | spelling => Ok a
    end
  end.

(** The sample values other than the one at index [i]:
    [[v2 for j, v2 in enumerate(values) if i != j]]. *)
Definition others (i : nat) (values : list str) : list str :=
  map snd (List.filter (fun jv => negb (Nat.eqb i (fst jv))) (enumerate values)).

(** The type one sample value counts for, in the order the loop tests. *)
Definition classify (delims values : list str) (i : nat) (v : str) : att_type :=
  match py_float v with
  | Some _ => numeric
  | None =>
      if existsb (fun d => contains d v) delims then tier
      else if str_in v (others i values) then factor
      else spelling
  end.

(** [probable_values[t] += 1] on the dict, kept in insertion order. *)
Fixpoint incr (t : att_type) (pv : list (att_type * nat)) : list (att_type * nat) :=
  match pv with
  | [] => []
  | (t', n) :: pv' => if att_type_eqb t t' then (t', S n) :: pv' else (t', n) :: incr t pv'
  end.

(** The dict after the loop; it starts as [{x: 0 for x in ATT_TYPES}]. *)
Definition count_types (delims values : list str) : list (att_type * nat) :=
  fold_left (fun pv iv => incr (classify delims values (fst iv) (snd iv)) pv)
    (enumerate values) (map (fun t => (t, 0)) ATT_TYPES).

(** [max(items, key=...)]: the first item whose key is the largest. *)
Fixpoint max_from {A} (key : A -> nat) (best : A) (l : list A) : A :=
  match l with
  | [] => best
  | x :: l' => max_from key (if key best <? key x then x else best) l'
  end.

Definition py_max {A} (key : A -> nat) (l : list A) : res A :=
  match l with
  | [] => Raise ValueError
  | x :: l' => Ok (max_from key x l')
  end.

Definition DEFAULT_TRANS_DELIMITERS : list str := [s_ "."; s_ " "; s_ ";"; s_ ","].

(** [Attribute.guess_type].  The return statement reads
    [operator.itemgetter(1)]: the name [operator] is looked up in the module's
    globals when the statement runs, after the loop. *)
Definition guess_type (values : list str) (trans_delimiters : option (list str))
    : res att_type :=
  let delims := match trans_delimiters with
                | None => DEFAULT_TRANS_DELIMITERS
                | Some ds => ds
                end in
  let probable_values := count_types delims values in
  _ ← module_ref "operator";
  it ← py_max snd probable_values;
  Ok (fst it).

(** [update_range] applied to each value of a sequence, in order. *)
Fixpoint update_all (a : Attribute) (vs : list value) : res Attribute :=
  match vs with
  | [] => Ok a
  | v :: vs' => a' ← update_range a v; update_all a' vs'
  end.

End PyFloat.

(** ** Character classes

    For code points below 256: [\d] and [string.digits] are the ten ASCII
    digits; [\s] is Python's Unicode white space; [\w] is an alphanumeric
    character or the underscore. *)

Definition code (c : ascii) : nat := nat_of_ascii c.

Definition in_range (lo hi n : nat) : bool := (lo <=? n) && (n <=? hi).

Definition is_digit (c : ascii) : bool := in_range 48 57 (code c).

Definition is_space (c : ascii) : bool :=
  let n := code c in
  in_range 9 13 n || in_range 28 32 n || Nat.eqb n 133 || Nat.eqb n 160.

Definition is_word (c : ascii) : bool :=
  let n := code c in
  in_range 48 57 n || in_range 65 90 n || in_range 97 122 n || Nat.eqb n 95
  || Nat.eqb n 170 || Nat.eqb n 178 || Nat.eqb n 179 || Nat.eqb n 181
  || Nat.eqb n 185 || Nat.eqb n 186 || in_range 188 190 n
  || in_range 192 214 n || in_range 216 246 n || in_range 248 255 n.

(** [str.lower] on one character. *)
Definition lower (c : ascii) : ascii :=
  let n := code c in
  if in_range 65 90 n || in_range 192 214 n || in_range 216 222 n
  then ascii_of_nat (n + 32) else c.

(** The characters a regular expression does not read literally. *)
Definition is_meta (c : ascii) : bool :=
  existsb (ascii_eqb c) (s_ ".^$*+?{}[]\|()").

Definition regex_literal (d : str) : bool := forallb (fun c => negb (is_meta c)) d.

(** ** Regular expressions of the shape the module compiles

    Every pattern of [helper.py] is an alternation of literal strings,
    possibly followed by [\d+] and [\S].  Alternation is ordered: at a
    position the first alternative that matches wins. *)

Inductive atom : Type :=
| Lit (d : str)
| Digits
| NonSpace.

Fixpoint take_digits (s : str) : str :=
  match s with
  | c :: r => if is_digit c then c :: take_digits r else []
  | [] => []
  end.

(** What an alternative matches at the start of [s]. *)
Definition match_atom (a : atom) (s : str) : option str :=
  match a with
  | Lit d => if is_prefix d s then Some d else None
  | Digits => match take_digits s with [] => None | t => Some t end
  | NonSpace => match s with
                | c :: _ => if is_space c then None else Some [c]
                | [] => None
                end
  end.

Definition is_empty (t : str) : bool := match t with [] => true | _ => false end.

(** The match of the alternation at the start of [s]; an empty match counts
    only when [allow_empty] (it does not right after an empty match at the
    same position). *)
Fixpoint first_match (allow_empty : bool) (alts : list atom) (s : str) : option str :=
  match alts with
  | [] => None
  | a :: alts' =>
      match match_atom a s with
      | Some t => if allow_empty || negb (is_empty t) then Some t
                  else first_match allow_empty alts' s
      | None => first_match allow_empty alts' s
      end
  end.

(** One left-to-right search pass: the matches, and the characters between
    them. *)
Inductive event : Type :=
| Hit (t : str)
| Gap (c : ascii).

Fixpoint scan (alts : list atom) (skip : nat) (s : str) : list event :=
  match s with
  | [] =>
      match skip with
      | 0 => match first_match true alts [] with Some t => [Hit t] | None => [] end
      | S _ => []
      end
  | c :: r =>
      match skip with
      | S k => scan alts k r
      | 0 =>
          match first_match true alts s with
          | Some [] =>
              Hit [] ::
              match first_match false alts s with
              | Some t => Hit t :: scan alts (length t - 1) r
              | None => Gap c :: scan alts 0 r
              end
          | Some t => Hit t :: scan alts (length t - 1) r
          | None => Gap c :: scan alts 0 r
          end
      end
  end.

(** [pattern.findall(s)]. *)
Definition findall (alts : list atom) (s : str) : list str :=
  flat_map (fun e => match e with Hit t => [t] | Gap _ => [] end) (scan alts 0 s).

(** [re.split(pattern, s)]: the text between the matches. *)
Fixpoint pieces (cur : str) (evs : list event) : list str :=
  match evs with
  | [] => [rev cur]
  | Hit _ :: r => rev cur :: pieces [] r
  | Gap c :: r => pieces (c :: cur) r
  end.

Definition re_split (alts : list atom) (s : str) : list str :=
  pieces [] (scan alts 0 s).

(** [parse_numbers = re.compile('\d+|\S')]. *)
Definition parse_numbers : list atom := [Digits; NonSpace].

(** [s.split(sep)] with a separator: the text between the successive
    leftmost occurrences of [sep]. *)
Fixpoint split_go (sep : str) (skip : nat) (s : str) : list str :=
  match s with
  | [] => [[]]
  | c :: r =>
      match skip with
      | S k => split_go sep k r
      | 0 =>
          if is_prefix sep s then [] :: split_go sep (length sep - 1) r
          else match split_go sep 0 r with
               | p :: ps => (c :: p) :: ps
               | [] => [[c]]
               end
      end
  end.

Definition str_split (sep s : str) : res (list str) :=
  match sep with
  | [] => Raise ValueError
  | _ => Ok (split_go sep 0 s)
  end.

(** [sep.join(l)]. *)
Fixpoint join (sep : str) (l : list str) : str :=
  match l with
  | [] => []
  | [x] => x
  | x :: l' => x ++ sep ++ join sep l'
  end.

(** [sorted(l, key=len, reverse=True)]: by decreasing length, stable. *)
Fixpoint insert_by_len (x : str) (l : list str) : list str :=
  match l with
  | [] => [x]
  | y :: l' => if length y <? length x then x :: l else y :: insert_by_len x l'
  end.

Definition sort_by_len_desc (l : list str) : list str :=
  fold_left (fun acc x => insert_by_len x acc) l [].

(** [compile_digraphs]: the digraphs, longest first, escaped, then [\d+] and
    [\S]. *)
Definition compile_digraphs (digraph_list : list str) : list atom :=
  map Lit (sort_by_len_desc digraph_list) ++ [Digits; NonSpace].

(** ** Dictionaries in insertion order

    A Python [dict] with string keys, as the list of its items in insertion
    order; every key occurs once. *)

Abbreviation dict V := (list (str * V)).

Fixpoint dict_get {V} (k : str) (d : dict V) : option V :=
  match d with
  | [] => None
  | (k', v) :: d' => if str_eqb k k' then Some v else dict_get k d'
  end.

Definition dict_mem {V} (k : str) (d : dict V) : bool :=
  match dict_get k d with Some _ => true | None => false end.

(** [d[k] = v]: an existing key keeps its place. *)
Fixpoint dict_set {V} (k : str) (v : V) (d : dict V) : dict V :=
  match d with
  | [] => [(k, v)]
  | (k', v') :: d' => if str_eqb k k' then (k', v) :: d' else (k', v') :: dict_set k v d'
  end.

(** [d[k]], which raises [KeyError] on a missing key. *)
Definition dict_item {V} (k : str) (d : dict V) : res V :=
  match dict_get k d with Some v => Ok v | None => Raise (KeyError k) end.

Definition keys {V} (d : dict V) : list str := map fst d.

Definition values {V} (d : dict V) : list V := map snd d.

(** ** Annotations *)

(** [BaseAnnotation]: a labelled span, with optional positions. *)
Record BaseAnnotation : Type := mkBase {
  label : str;
  begin : option Q;
  end_ : option Q;
  stress : option str;
  tone : option str;
  group : option nat
}.

(** [BaseAnnotation(label)]. *)
Definition BaseAnnotation_init (l : str) : BaseAnnotation :=
  mkBase l None None None None None.

(** [==] on the positions of two segments: [None] or a number. *)
Definition position_eqb (x y : option Q) : bool :=
  match x, y with
  | None, None => true
  | Some p, Some q => Qeq_bool p q
  | _, _ => false
  end.

(** [BaseAnnotation.__eq__] with another [BaseAnnotation]: the label, the
    begin and the end are compared, nothing else. *)
Definition BaseAnnotation_eq (a b : BaseAnnotation) : bool :=
  str_eqb (label a) (label b) && position_eqb (begin a) (begin b)
  && position_eqb (end_ a) (end_ b).

(** [==] on two lists of segments. *)
Fixpoint segments_eq (l1 l2 : list BaseAnnotation) : bool :=
  match l1, l2 with
  | [], [] => true
  | a :: r1, b :: r2 => BaseAnnotation_eq a b && segments_eq r1 r2
  | _, _ => false
  end.

(** [Annotation]: a label, references to other tiers with their intervals,
    and the two property dicts. *)
Record Annotation : Type := mkAnnotation {
  ann_label : str;
  begins : list Z;
  ends : list Z;
  references : list str;
  ann_token : dict value;
  additional : dict value
}.

(** A value of the dict that [collapse_speakers] reads an annotation as: an
    interval [(begin, end)] or anything else. *)
Inductive dval : Type :=
| DInterval (b e : Z)
| DValue (v : value).

(** What a tier stores. *)
Inductive item : Type :=
| IBase (b : BaseAnnotation)
| IAnn (a : Annotation)
| IDict (d : dict dval).

(** [iter(a)], as [set.update] consumes it: the characters of the label of an
    annotation, the keys of a dict. *)
Definition iter_item (a : item) : list str :=
  match a with
  | IBase b => map (fun c => [c]) (label b)
  | IAnn x => map (fun c => [c]) (ann_label x)
  | IDict d => keys d
  end.

(** ** AnnotationType *)

Inductive number_policy : Type := stress_policy | tone_policy.

Record AnnotationType : Type := mkAnnotationType {
  characters : list str;
  ignored_characters : option (list ascii);
  digraphs : list str;
  trans_delimiter : option str;
  morph_delimiters : list str;
  number_behavior : option number_policy;
  _list : list item;
  at_name : str;
  subtype : option str;
  supertype : option str;
  token : bool;
  base : bool;
  anchor : bool;
  speaker : option str;
  ignored : bool;
  output_name : str;
  attribute : Attribute
}.

(** [Attribute.sanitize_name]: [re.sub('\W', '', name.lower())], on names of
    code points below 256, where [str.lower] works character by character
    (beyond them it does not: a capital sigma is lowered by its place in the
    word). *)
Definition sanitize_name (n : str) : str := List.filter is_word (map lower n).

Fixpoint take_nonword (s : str) : str :=
  match s with
  | c :: r => if is_word c then [] else c :: take_nonword r
  | [] => []
  end.

(** [re.sub(speaker + '\W*', '', name)] for a speaker read literally. *)
Fixpoint strip_speaker (sp : str) (skip : nat) (s : str) : str :=
  match s with
  | [] => []
  | c :: r =>
      match skip with
      | S k => strip_speaker sp k r
      | 0 =>
          if is_prefix sp s then
            match length sp + length (take_nonword (skipn (length sp) s)) with
            | S n => strip_speaker sp n r
            | 0 => c :: strip_speaker sp 0 r
            end
          else c :: strip_speaker sp 0 r
      end
  end.

(** A keyword argument of a call. *)
Inductive arg : Type :=
| ABool (b : bool)
| AStr (s : option str)
| AAttr (a : option Attribute).

(** The parameters of [AnnotationType.__init__] after [name], [subtype] and
    [supertype]. *)
Definition AnnotationType_keywords : list string :=
  ["attribute"; "anchor"; "token"; "base"; "speaker"]%string.

Fixpoint kw_get (k : string) (kwargs : list (string * arg)) : option arg :=
  match kwargs with
  | [] => None
  | (k', a) :: r => if String.eqb k k' then Some a else kw_get k r
  end.

Definition kw_bool (k : string) (kwargs : list (string * arg)) : bool :=
  match kw_get k kwargs with Some (ABool b) => b | _ => false end.

(** [AnnotationType(name, subtype, supertype, **kwargs)]: a keyword that is
    no parameter of [__init__] is a [TypeError]. *)
Definition AnnotationType_init (n : str) (sub super : option str)
    (kwargs : list (string * arg)) : res AnnotationType :=
  match find (fun kw => negb (existsb (String.eqb (fst kw)) AnnotationType_keywords)) kwargs with
  | Some (k, _) => Raise (TypeError ("__init__() got an unexpected keyword argument " +:+ k))
  | None =>
      let b := kw_bool "base" kwargs in
      let sp := match kw_get "speaker" kwargs with Some (AStr s) => s | _ => None end in
      out ← match sp with
            | None => Ok n
            | Some x => if regex_literal x then Ok (strip_speaker x 0 n)
                        else Raise (NotModelled "speaker read as a regular expression")
            end;
      att ← match kw_get "attribute" kwargs with
            | Some (AAttr (Some a)) => Ok a
            | _ => Attribute_init (sanitize_name n) (if b then tier else spelling)
                     (Some n) VNone
            end;
      Ok (mkAnnotationType [] (Some []) [] None [] None [] n sub super
            (kw_bool "token" kwargs) b (kw_bool "anchor" kwargs) sp false out att)
  end.

Definition set_list (t : AnnotationType) (chars : list str) (l : list item) : AnnotationType :=
  mkAnnotationType chars (ignored_characters t) (digraphs t) (trans_delimiter t)
    (morph_delimiters t) (number_behavior t) l (at_name t) (subtype t) (supertype t)
    (token t) (base t) (anchor t) (speaker t) (ignored t) (output_name t) (attribute t).

(** [set.update] on a set of strings. *)
Definition set_update (l xs : list str) : list str :=
  fold_left (fun acc x => if str_in x acc then acc else acc ++ [x]) xs l.

(** [AnnotationType.add]. *)
Fixpoint add (t : AnnotationType) (annotations : list item) (save : bool) : AnnotationType :=
  match annotations with
  | [] => t
  | a :: r =>
      let chars := set_update (characters t) (iter_item a) in
      let l := if save || (length (_list t) <? 10) then _list t ++ [a] else _list t in
      add (set_list t chars l) r save
  end.

Definition delimiter (t : AnnotationType) : option str := trans_delimiter t.

Definition delimited (t : AnnotationType) : bool :=
  match delimiter t with
  | Some _ => true
  | None => negb (Nat.eqb (length (digraphs t)) 0)
  end.

Definition digraph_pattern (t : AnnotationType) : option (list atom) :=
  match digraphs t with
  | [] => None
  | ds => Some (compile_digraphs ds)
  end.

Definition is_word_anchor (t : AnnotationType) : bool := negb (token t) && anchor t.

Definition is_token_base (t : AnnotationType) : bool := token t && base t.

Definition is_type_base (t : AnnotationType) : bool := negb (token t) && base t.

(** ** The transcription tokenizer *)

(** [setattr(a, annotation_type.number_behavior, num)]. *)
Definition set_number (p : number_policy) (num : option str) (a : BaseAnnotation)
    : BaseAnnotation :=
  match p with
  | stress_policy => mkBase (label a) (begin a) (end_ a) num (tone a) (group a)
  | tone_policy => mkBase (label a) (begin a) (end_ a) (stress a) num (group a)
  end.

Definition set_group (i : nat) (a : BaseAnnotation) : BaseAnnotation :=
  mkBase (label a) (begin a) (end_ a) (stress a) (tone a) (Some i).

(** [l[-1] = f(l[-1])], which raises [IndexError] on an empty list. *)
Fixpoint update_last {A} (f : A -> A) (l : list A) : res (list A) :=
  match l with
  | [] => Raise IndexError
  | [x] => Ok [f x]
  | x :: l' => r ← update_last f l'; Ok (x :: r)
  end.

(** The loop over the tokens, [final_string] being the segments built so
    far. *)
Fixpoint build_segments (nb : option number_policy) (segs : list str)
    (final_string : list BaseAnnotation) : res (list BaseAnnotation) :=
  match segs with
  | [] => Ok final_string
  | seg :: rest =>
      if is_empty seg then build_segments nb rest final_string
      else
        match nb with
        | None => build_segments nb rest (final_string ++ [BaseAnnotation_init seg])
        | Some p =>
            let num := List.filter is_digit seg in
            let seg' := List.filter (fun x => negb (is_digit x)) seg in
            let num' := if is_empty num then None else Some num in
            if is_empty seg' then
              fs ← update_last (set_number p num') final_string;
              build_segments nb rest fs
            else
              let a := BaseAnnotation_init seg' in
              let a' := match num' with Some _ => set_number p num' a | None => a end in
              build_segments nb rest (final_string ++ [a'])
        end
  end.

(** The part of [parse_transcription] after the morpheme split. *)
Definition tokenize (string : str) (annotation_type : AnnotationType)
    : res (list BaseAnnotation) :=
  let string1 := match ignored_characters annotation_type with
                 | Some ig => List.filter (fun x => negb (existsb (ascii_eqb x) ig)) string
                 | None => string
                 end in
  segs ← match trans_delimiter annotation_type with
         | Some d => str_split d string1
         | None =>
             match digraph_pattern annotation_type with
             | Some pat => Ok (findall pat string1)
             | None => Ok (findall parse_numbers string1)
             end
         end;
  build_segments (number_behavior annotation_type) segs [].

(** [parse_transcription], [depth] being the number of nested calls the
    interpreter still allows.  The morpheme delimiters are joined into a
    pattern without escaping; the embedding follows delimiters that the
    pattern reads literally. *)
Fixpoint parse_transcription_rec (depth : nat) (string : str)
    (annotation_type : AnnotationType) : res (list BaseAnnotation) :=
  match depth with
  | 0 => Raise RecursionError
  | S depth' =>
      let md := morph_delimiters annotation_type in
      if negb (Nat.eqb (length md) 0) && existsb (fun x => contains x string) md then
        if forallb regex_literal md then
          let morphs := re_split (map Lit md) string in
          fold_left
            (fun acc im =>
               transcription ← acc;
               trans ← parse_transcription_rec depth' (snd im) annotation_type;
               Ok (transcription ++ map (set_group (fst im)) trans))
            (enumerate morphs) (Ok [])
        else Raise (NotModelled "morpheme delimiter read as a regular expression")
      else tokenize string annotation_type
  end.

(** The interpreter's default limit on nested calls. *)
Definition recursion_limit : nat := 1000.

Definition parse_transcription (string : str) (annotation_type : AnnotationType)
    : res (list BaseAnnotation) :=
  parse_transcription_rec recursion_limit string annotation_type.

(** A tier as its constructor leaves it, with the tokenizer's settings. *)
Definition tier_config (ig : option (list ascii)) (dg : list str) (delim : option str)
    (md : list str) (nb : option number_policy) : AnnotationType :=
  mkAnnotationType [] ig dg delim md nb [] (s_ "transcription") None None
    false true false None false (s_ "transcription")
    (mkAttribute (s_ "transcription") tier (Some (s_ "transcription")) (VList [])
       (RSet []) None).

(** ** DiscourseData *)

Record DiscourseData : Type := mkDiscourseData {
  dd_name : str;
  data : dict AnnotationType;
  wav_path : option str
}.

(** [DiscourseData.__init__]: [{x.name: x for x in levels}]. *)
Definition DiscourseData_init (n : str) (levels : list AnnotationType) : DiscourseData :=
  mkDiscourseData n (fold_left (fun d x => dict_set (at_name x) x d) levels []) None.

Definition word_levels (d : DiscourseData) : list str :=
  map fst (List.filter (fun kv => is_word_anchor (snd kv)) (data d)).

Definition base_levels (d : DiscourseData) : list str :=
  map fst (List.filter (fun kv => base (snd kv)) (data d)).

(** [DiscourseData.mapping]. *)
Definition mapping (d : DiscourseData) : dict Attribute :=
  fold_left (fun m x => if ignored x then m else dict_set (at_name x) (attribute x) m)
    (values (data d)) [].

(** One step of the [for] loop of [process_order], on the item [(k, v)]. *)
Definition place (order : list str) (kv : str * AnnotationType) : list str :=
  let k := fst kv in
  let v := snd kv in
  if str_in k order then order
  else if base v then order
  else match supertype v with
       | None => order ++ [k]
       | Some s => if str_in s order then order ++ [k] else order
       end.

(** One pass of the [for] loop over the items. *)
Definition pass (d : DiscourseData) (order : list str) : list str :=
  fold_left place (data d) order.

(** The [while] loop of [process_order]: [None] when the loop has not
    exited after [fuel] passes. *)
Fixpoint process_order_loop (fuel : nat) (d : DiscourseData) (order : list str)
    : option (res (list str)) :=
  if length order <? length (keys (data d)) - length (base_levels d) then
    match fuel with
    | 0 => None
    | S fuel' => process_order_loop fuel' d (pass d order)
    end
  else Some (Ok order).

(** [DiscourseData.process_order], run for at most [fuel] passes. *)
Definition process_order (fuel : nat) (d : DiscourseData) : option (res (list str)) :=
  process_order_loop fuel d (word_levels d).

(** Order of strings, as [sorted] compares them. *)
Fixpoint str_ltb (a b : str) : bool :=
  match a, b with
  | [], [] => false
  | [], _ :: _ => true
  | _ :: _, [] => false
  | x :: a', y :: b' =>
      if code x <? code y then true
      else if code y <? code x then false
      else str_ltb a' b'
  end.

Fixpoint insert_sorted (x : str) (l : list str) : list str :=
  match l with
  | [] => [x]
  | y :: l' => if str_ltb x y then x :: l else y :: insert_sorted x l'
  end.

(** [sorted(set(l))]. *)
Definition sorted_set (l : list str) : list str :=
  fold_left (fun acc x => if str_in x acc then acc else insert_sorted x acc) l [].

Definition opt_str_eqb (a b : option str) : bool :=
  match a, b with
  | Some x, Some y => str_eqb x y
  | None, None => true
  | _, _ => false
  end.

(** The merge order of [collapse_speakers]: speakers sorted, and for a
    speaker the tiers that are not base before those that are. *)
Definition merge_keys (d : DiscourseData) : list str :=
  let speakers :=
    sorted_set (flat_map (fun x => match speaker x with Some s => [s] | None => [] end)
                  (values (data d))) in
  flat_map
    (fun s =>
       let own := List.filter (fun kv => opt_str_eqb (speaker (snd kv)) (Some s)) (data d) in
       map fst (List.filter (fun kv => negb (base (snd kv))) own)
       ++ map fst (List.filter (fun kv => base (snd kv)) own))
    speakers.

(** [v2[0]]: what subscripting a value that is no interval does. *)
Definition subscript0 (v : value) : res unit :=
  match v with
  | VStr (_ :: _) | VList (_ :: _) => Ok tt
  | VStr [] | VList [] => Raise IndexError
  | _ => Raise (TypeError "object is not subscriptable")
  end.

(** The body of the loop over [ann.items()]: the key becomes the merged
    tier's name and the interval is shifted; a [KeyError] leaves the item as
    it is. *)
Definition translate (d : DiscourseData) (shifts : dict Z) (k2 : str) (v2 : dval)
    : res (str * dval) :=
  match dict_get k2 (data d) with
  | None => Ok (k2, v2)
  | Some t =>
      let newk2 := output_name t in
      match v2 with
      | DInterval b e =>
          match dict_get newk2 shifts with
          | Some sh => Ok (newk2, DInterval (b + sh) (e + sh))
          | None => Ok (k2, v2)
          end
      | DValue v =>
          _ ← subscript0 v;
          match dict_get newk2 shifts with
          | Some _ => Raise (TypeError "unsupported operand type(s) for +")
          | None => Ok (k2, v2)
          end
      end
  end.

Fixpoint translate_all (d : DiscourseData) (shifts : dict Z) (items : dict dval)
    (newann : dict dval) : res (dict dval) :=
  match items with
  | [] => Ok newann
  | (k2, v2) :: r =>
      kv ← translate d shifts k2 v2;
      translate_all d shifts r (dict_set (fst kv) (snd kv) newann)
  end.

(** The loop [for ann in v] of [collapse_speakers]; [ann.items()] needs a
    dict. *)
Fixpoint merge_annotations (d : DiscourseData) (shifts : dict Z) (anns : list item)
    (dest : AnnotationType) : res AnnotationType :=
  match anns with
  | [] => Ok dest
  | IDict items :: r =>
      newann ← translate_all d shifts items [];
      merge_annotations d shifts r (add dest [IDict newann] true)
  | _ :: _ => Raise (AttributeError "items")
  end.

(** [self.data[x].output_name] for an optional tier name. *)
Definition merged_name (d : DiscourseData) (x : option str) : res (option str) :=
  match x with
  | None => Ok None
  | Some k => t ← dict_item k (data d); Ok (Some (output_name t))
  end.

(** The loop [for k in keys] of [collapse_speakers]. *)
Fixpoint merge_tiers (d : DiscourseData) (ks : list str) (newdata : dict AnnotationType)
    (shifts : dict Z) : res (dict AnnotationType) :=
  match ks with
  | [] => Ok newdata
  | k :: r =>
      v ← dict_item k (data d);
      let name := output_name v in
      newdata1 ←
        (if dict_mem name newdata then Ok newdata
         else
           sub ← merged_name d (subtype v);
           super ← merged_name d (supertype v);
           t ← AnnotationType_init name sub super
                 [("anchor", ABool (anchor v)); ("token", ABool (token v));
                  ("base", ABool (base v)); ("delimited", ABool (delimited v))]%string;
           Ok (dict_set name t newdata));
      dest ← dict_item name newdata1;
      dest' ← merge_annotations d shifts (_list v) dest;
      let newdata2 := dict_set name dest' newdata1 in
      shifts' ←
        (if base v then
           sh ← dict_item name shifts;
           Ok (dict_set name (sh + Z.of_nat (length (_list v)))%Z shifts)
         else Ok shifts);
      merge_tiers d r newdata2 shifts'
  end.

(** [DiscourseData.collapse_speakers]. *)
Definition collapse_speakers (d : DiscourseData) : res DiscourseData :=
  let shifts :=
    fold_left (fun sh x => match dict_get x (data d) with
                           | Some t => dict_set (output_name t) 0%Z sh
                           | None => sh
                           end) (base_levels d) [] in
  newdata ← merge_tiers d (merge_keys d) [] shifts;
  Ok (mkDiscourseData (dd_name d) newdata (wav_path d)).

(** ** Projection of the word tiers: [data_to_discourse] *)

(** [l[b:e]] on a list, with Python's reading of negative and overlong
    indices. *)
Definition norm_index (len i : Z) : Z :=
  let i' := if (i <? 0)%Z then (i + len)%Z else i in
  Z.max 0 (Z.min len i').

Definition py_slice {A} (l : list A) (b e : Z) : list A :=
  let n := Z.of_nat (length l) in
  let b' := Z.to_nat (norm_index n b) in
  let e' := Z.to_nat (norm_index n e) in
  firstn (e' - b') (skipn b' l).

(** [l[j]] for [j >= 0]. *)
Definition list_item {A} (l : list A) (j : nat) : res A :=
  match nth_error l j with Some x => Ok x | None => Raise IndexError end.

(** [x.begin] and [x.end]: only a [BaseAnnotation] has them. *)
Definition item_begin (x : item) : res (option Q) :=
  match x with IBase b => Ok (begin b) | _ => Raise (AttributeError "begin") end.

Definition item_end (x : item) : res (option Q) :=
  match x with IBase b => Ok (end_ b) | _ => Raise (AttributeError "end") end.

(** The value of a property: a plain value or a slice of a tier. *)
Inductive propval : Type :=
| PValue (v : value)
| PSeq (l : list item).

Section Projection.

(** Modelled from the spec: [Discourse], [WordToken] and the lexicon are
    classes of the repository whose declarations are not in [helper.py].
    The lexicon and its words are abstract; a [WordToken] is the keyword
    arguments it is built from, and a [Discourse] is its attributes and the
    word tokens added to it.  [helper.py] does not import the two classes it
    names: each reference to them goes through [global_ref]. *)
Variable Lexicon : Type.
Variable Word : Type.
Variable empty_lexicon : Lexicon.
Variable lex_has_attribute : Lexicon -> Attribute -> bool.
Variable lex_add_attribute : Lexicon -> Attribute -> Lexicon.
Variable get_or_create_word : Lexicon -> dict (Attribute * propval) -> Lexicon * Word.
Variable record_token : Lexicon -> Word -> Lexicon.

(** A keyword argument of [WordToken(...)]. *)
Inductive kwval : Type :=
| KProp (att : Attribute) (v : propval)
| KPos (p : option Q)
| KWord (w : Word).

Abbreviation WordToken := (dict kwval).

Record Discourse : Type := mkDiscourse {
  disc_name : str;
  disc_wav_path : option str;
  disc_attributes : list Attribute;
  disc_words : list WordToken
}.

(** [v in attributes]: [Attribute.__eq__] compares names. *)
Definition has_attribute (l : list Attribute) (v : Attribute) : bool :=
  existsb (fun a => str_eqb (name a) (name v)) l.

(** The first loop: every mapped attribute is registered, with the discourse
    for a token tier and with the lexicon otherwise. *)
Fixpoint register (dd : DiscourseData) (am : dict Attribute) (d : Discourse)
    (lexicon : Lexicon) : res (Discourse * Lexicon) :=
  match am with
  | [] => Ok (d, lexicon)
  | (k, v) :: r =>
      a ← dict_item k (data dd);
      let d1 := if token a && negb (has_attribute (disc_attributes d) v)
                then mkDiscourse (disc_name d) (disc_wav_path d)
                       (disc_attributes d ++ [v]) (disc_words d)
                else d in
      let lexicon1 := if negb (token a) && negb (lex_has_attribute empty_lexicon v)
                      then lex_add_attribute lexicon v else lexicon in
      register dd r d1 lexicon1
  end.

(** The two dicts a word is built from: [(word_kwargs, word_token_kwargs)]. *)
Abbreviation kwargs := (dict (Attribute * propval) * dict kwval)%type.

(** The loop over [s.token.items()]. *)
Fixpoint token_properties (am : dict Attribute) (items : dict value) (kw : kwargs)
    : res kwargs :=
  match items with
  | [] => Ok kw
  | (token_key, token_value) :: r =>
      att ← dict_item token_key am;
      token_properties am r
        (fst kw, dict_set (name att) (KProp att (PValue token_value)) (snd kw))
  end.

(** The loop over [s.additional.items()]. *)
Fixpoint additional_properties (dd : DiscourseData) (am : dict Attribute)
    (items : dict value) (kw : kwargs) : res kwargs :=
  match items with
  | [] => Ok kw
  | (add_key, add_value) :: r =>
      att ← dict_item add_key am;
      t ← dict_item add_key (data dd);
      additional_properties dd am r
        (if token t
         then (fst kw, dict_set (name att) (KProp att (PValue add_value)) (snd kw))
         else (dict_set (name att) (att, PValue add_value) (fst kw), snd kw))
  end.

(** The body of the loop over [enumerate(s.references)], for the reference
    [r] at index [j]. *)
Definition resolve_reference (dd : DiscourseData) (am : dict Attribute) (s : Annotation)
    (j : nat) (r : str) (kw : kwargs) : res kwargs :=
  match dict_get r (data dd) with
  | None => Ok kw
  | Some t =>
      if Nat.eqb (length (_list t)) 0 then Ok kw
      else
        b ← list_item (begins s) j;
        e ← list_item (ends s) j;
        let seq := py_slice (_list t) b e in
        att ← dict_item r am;
        if token t then
          let wtk := dict_set (name att) (KProp att (PSeq seq)) (snd kw) in
          match seq with
          | [] => Ok (fst kw, wtk)
          | first :: _ =>
              fb ← item_begin first;
              match fb with
              | None => Ok (fst kw, wtk)
              | Some _ =>
                  le ← item_end (List.last seq first);
                  Ok (fst kw,
                      dict_set (s_ "end") (KPos le) (dict_set (s_ "begin") (KPos fb) wtk))
              end
          end
        else Ok (dict_set (name att) (att, PSeq seq) (fst kw), snd kw)
  end.

Fixpoint resolve_references (dd : DiscourseData) (am : dict Attribute) (s : Annotation)
    (refs : list (nat * str)) (kw : kwargs) : res kwargs :=
  match refs with
  | [] => Ok kw
  | (j, r) :: rest =>
      kw' ← resolve_reference dd am s j r kw;
      resolve_references dd am s rest kw'
  end.

(** The counter [ind] as a position. *)
Definition position (ind : nat) : option Q := Some (inject_Z (Z.of_nat ind)).

(** The keyword arguments of the word token of the annotation [s] of the
    word tier [level], [ind] tokens having been created before; and the word
    it belongs to. *)
Definition word_token (dd : DiscourseData) (am : dict Attribute) (lexicon : Lexicon)
    (level : str) (s : item) (ind : nat) : res (Lexicon * WordToken) :=
  match s with
  | IAnn s =>
      la ← dict_item level am;
      kw ← token_properties am (ann_token s) ([(s_ "spelling", (la, PValue (VStr (ann_label s))))], []);
      kw ← additional_properties dd am (additional s) kw;
      kw ← resolve_references dd am s (enumerate (references s)) kw;
      let lw := get_or_create_word lexicon (fst kw) in
      let wtk := dict_set (s_ "word") (KWord (snd lw)) (snd kw) in
      let wtk := if dict_mem (s_ "begin") wtk then wtk
                 else dict_set (s_ "end") (KPos (position (ind + 1)))
                        (dict_set (s_ "begin") (KPos (position ind)) wtk) in
      _ ← global_ref "WordToken";
      Ok (record_token (fst lw) (snd lw), wtk)
  | IBase _ => Raise (AttributeError "token")
  | IDict _ => Raise (AttributeError "label")
  end.

(** The loop over the annotations of one word tier. *)
Fixpoint project_level (dd : DiscourseData) (am : dict Attribute) (level : str)
    (anns : list item) (st : Lexicon * list WordToken) : res (Lexicon * list WordToken) :=
  match anns with
  | [] => Ok st
  | s :: r =>
      lt ← word_token dd am (fst st) level s (length (snd st));
      project_level dd am level r (fst lt, snd st ++ [snd lt])
  end.

(** The loop over [data.word_levels]. *)
Fixpoint project_levels (dd : DiscourseData) (am : dict Attribute) (levels : list str)
    (st : Lexicon * list WordToken) : res (Lexicon * list WordToken) :=
  match levels with
  | [] => Ok st
  | level :: r =>
      t ← dict_item level (data dd);
      st' ← project_level dd am level (_list t) st;
      project_levels dd am r st'
  end.

(** [data_to_discourse]. *)
Definition data_to_discourse (dd : DiscourseData) (lexicon : option Lexicon)
    : res (Lexicon * Discourse) :=
  let attribute_mapping := mapping dd in
  _ ← global_ref "Discourse";
  let d := mkDiscourse (dd_name dd) (wav_path dd) [] [] in
  let lexicon := match lexicon with Some l => l | None => empty_lexicon end in
  dl ← register dd attribute_mapping d lexicon;
  st ← project_levels dd attribute_mapping (word_levels dd) (snd dl, []);
  Ok (fst st, mkDiscourse (disc_name (fst dl)) (disc_wav_path (fst dl))
                (disc_attributes (fst dl)) (snd st)).

End Projection.

(** ** CorpusContext.add_discourse ([polyglotdb/corpus.py]) *)

Module Corpus.

(** Modelled from the spec: the discourse data that [corpus.py] receives is
    polyglotdb's own [DiscourseData], whose declaration is not in the files at
    hand.  The record holds what [add_discourse] reads of it: its output
    types, its timed flag, its word levels, and the supertype and anchor flag
    of its tiers. *)
Record Tier : Type := mkTier {
  supertype : option str;
  anchor : bool
}.

Record Data : Type := mkData {
  name : str;
  corpus_name : option str;
  output_types : list str;
  is_timed : bool;
  word_levels : list str;
  tiers : gmap str Tier
}.

(** [data[k]]. *)
Definition getitem (data : Data) (k : str) : res Tier :=
  match tiers data !! k with Some t => Ok t | None => Raise (KeyError k) end.

Section Stores.

(** The graph store, the relational session and the temporary directory.
    [import_csvs] and [update_sql_database] issue statements to them and
    assign no attribute of the context; [data_to_graph_csvs] and
    [add_acoustic_info] are outside these files.  The four are operations on
    the stores that may raise. *)
Variable Stores : Type.
Variable data_to_graph_csvs : Data -> Stores -> res Stores.
Variable import_csvs : Data -> Stores -> res Stores.
Variable update_sql_database : Data -> Stores -> res Stores.
Variable add_acoustic_info : Data -> Stores -> res Stores.

(** The variables of a corpus that [save_variables] persists, and the
    stores. *)
Record CorpusContext : Type := mkCorpusContext {
  ctx_corpus_name : str;
  relationship_types : gset str;
  ctx_is_timed : bool;
  hierarchy : gmap str (option str);
  stores : Stores
}.

(** The value [add_discourse] stores in [self.hierarchy[x]]. *)
Definition hierarchy_entry (data : Data) (x : str) : res (option str) :=
  if str_eqb x (s_ "word") then
    w ← list_item (word_levels data) 0;
    t ← getitem data w;
    Ok (supertype t)
  else
    t ← getitem data x;
    match supertype t with
    | None => Ok None
    | Some s =>
        t2 ← getitem data s;
        Ok (if anchor t2 then Some (s_ "word") else Some s)
    end.

(** The loop [for x in data.output_types]. *)
Fixpoint build_hierarchy (data : Data) (types : list str) (h : gmap str (option str))
    : res (gmap str (option str)) :=
  match types with
  | [] => Ok h
  | x :: r =>
      e ← hierarchy_entry data x;
      build_hierarchy data r (<[x := e]> h)
  end.

(** [CorpusContext.add_discourse]. *)
Definition add_discourse (c : CorpusContext) (data : Data) : res CorpusContext :=
  let data := mkData (name data) (Some (ctx_corpus_name c)) (output_types data)
                (is_timed data) (word_levels data) (tiers data) in
  st ← data_to_graph_csvs data (stores c);
  st ← import_csvs data st;
  let rt := relationship_types c ∪ list_to_set (output_types data) in
  let timed := if is_timed data then true else false in
  st ← update_sql_database data st;
  st ← add_acoustic_info data st;
  h ← build_hierarchy data (output_types data) ∅;
  Ok (mkCorpusContext (ctx_corpus_name c) rt timed h st).

End Stores.

End Corpus.

(** ** Further methods of the tiers and of the discourse *)

(** [AnnotationType.reset]. *)
Definition reset (t : AnnotationType) : AnnotationType := set_list t (characters t) [].

(** [AnnotationType.__len__]. *)
Definition tier_len (t : AnnotationType) : nat := length (_list t).



(** [DiscourseData.level_length]. *)
Definition level_length (d : DiscourseData) (key : str) : res nat :=
  t ← dict_item key (data d);
  Ok (tier_len t).

(** ** Annotation: the constructor and the lookup of a reference *)

(** A keyword argument of [Annotation(label, ...)]: a tuple of integers (the
    interval of a cross-reference), which makes the keyword a reference, or
    any other value. *)
Inductive kwarg : Type :=
| KTuple (l : list Z)
| KOther (v : value).

(** The parameters of [Annotation.__init__]: a keyword of one of these names
    is a second value for the parameter, and the call raises [TypeError]
    before the body runs. *)
Definition annotation_parameters : list str := [s_ "self"; s_ "label"].

(** The lists the loop of [Annotation.__init__] appends to. *)
Definition annotation_fields : list str :=
  [s_ "begins"; s_ "ends"; s_ "references"].

(** [setattr(self, k, v)] for a value [v] that is no tuple: [__class__] and
    [__dict__] accept only a class and a dict, [__weakref__] is not
    writable; a value that replaces one of the three lists of the loop is
    outside the embedding; [token] and [additional] are assigned after the
    loop, which overwrites an attribute of that name; any other name becomes
    an attribute of the object. *)
Definition annotation_setattr (k : str) (v : value) (extra : dict value)
    : res (dict value) :=
  if str_in k [s_ "__class__"; s_ "__dict__"]
  then Raise (TypeError "must be set to a class or a dictionary")
  else if str_eqb k (s_ "__weakref__") then Raise (AttributeError "__weakref__")
  else if str_in k annotation_fields
  then Raise (NotModelled "attribute that replaces a list of the annotation")
  else if str_in k [s_ "token"; s_ "additional"] then Ok extra
  else Ok (dict_set k v extra).

(** The loop of [Annotation.__init__] over the keyword arguments.  A tuple is
    appended to the references, with its first two members as bounds; any
    other value is set as an attribute of the object. *)
Fixpoint annotation_kwargs (kwargs : dict kwarg) (a : Annotation) (extra : dict value)
    : res (Annotation * dict value) :=
  match kwargs with
  | [] => Ok (a, extra)
  | (k, KTuple l) :: r =>
      b ← list_item l 0;
      e ← list_item l 1;
      annotation_kwargs r
        (mkAnnotation (ann_label a) (begins a ++ [b]) (ends a ++ [e]) (references a ++ [k])
           (ann_token a) (additional a)) extra
  | (k, KOther v) :: r =>
      extra' ← annotation_setattr k v extra;
      annotation_kwargs r a extra'
  end.

(** [Annotation(label, **kwargs)]: the annotation, and its other
    attributes. *)
Definition Annotation_init (l : str) (kwargs : dict kwarg) : res (Annotation * dict value) :=
  if existsb (fun k => str_in k annotation_parameters) (keys kwargs)
  then Raise (TypeError "got multiple values for argument")
  else annotation_kwargs kwargs (mkAnnotation l [] [] [] [] []) [].

(** [Annotation.__getitem__]: the bounds of the first reference named
    [key]. *)
Fixpoint getitem_from (refs : list str) (bs es : list Z) (key : str)
    : res (option (Z * Z)) :=
  match refs with
  | [] => Ok None
  | r :: refs' =>
      if str_eqb r key then
        b ← list_item bs 0;
        e ← list_item es 0;
        Ok (Some (b, e))
      else getitem_from refs' (tl bs) (tl es) key
  end.

Definition Annotation_getitem (a : Annotation) (key : str) : res (option (Z * Z)) :=
  getitem_from (references a) (begins a) (ends a) key.

(** ** inspect_directory *)

(** The part of [s] after the last occurrence of [c], if [c] occurs. *)
Fixpoint after_last (c : ascii) (s : str) : option str :=
  match s with
  | [] => None
  | x :: r =>
      match after_last c r with
      | Some t => Some t
      | None => if ascii_eqb x c then Some r else None
      end
  end.

(** The part of [s] before the last occurrence of [c], if [c] occurs. *)
Fixpoint before_last (c : ascii) (s : str) : option str :=
  match s with
  | [] => None
  | x :: r =>
      match before_last c r with
      | Some t => Some (x :: t)
      | None => if ascii_eqb x c then Some [] else None
      end
  end.

(** [os.path.splitext(p)[-1]] with the separator [/]: the part of the file
    name from its last dot on, unless only dots come before that dot in the
    file name; the empty string when there is no such part. *)
Definition splitext_ext (p : str) : str :=
  let base := match after_last "/" p with Some b => b | None => p end in
  match before_last "." base, after_last "." base with
  | Some stem, Some e =>
      if forallb (fun c => ascii_eqb c ".") stem then [] else "."%char :: e
  | _, _ => []
  end.

(** The type [inspect_directory] counts a file under, None for a file it
    skips. *)
Definition file_type (f : str) : option str :=
  let ext := map lower (splitext_ext f) in
  if str_eqb ext (s_ ".textgrid") then Some (s_ "textgrid")
  else if str_eqb ext (s_ ".txt") then Some (s_ "text")
  else if str_in ext [s_ ".words"; s_ ".wrds"] then Some (s_ "multiple")
  else None.

(** The body of the loop over the files: [counter[t] += 1] and
    [relevant_files[t].append(f)]. *)
Definition count_file (st : dict nat * dict (list str)) (f : str)
    : res (dict nat * dict (list str)) :=
  match file_type f with
  | None => Ok st
  | Some t =>
      n ← dict_item t (fst st);
      let counter := dict_set t (n + 1) (fst st) in
      l ← dict_item t (snd st);
      Ok (counter, dict_set t (l ++ [f]) (snd st))
  end.

Fixpoint count_files (st : dict nat * dict (list str)) (files : list str)
    : res (dict nat * dict (list str)) :=
  match files with
  | [] => Ok st
  | f :: r => st' ← count_file st f; count_files st' r
  end.

(** The loop over [os.walk(directory)], whose triples [(root, subdirs,
    files)] are given. *)
Fixpoint count_walk (st : dict nat * dict (list str))
    (walk : list (str * list str * list str)) : res (dict nat * dict (list str)) :=
  match walk with
  | [] => Ok st
  | (_, _, files) :: r => st' ← count_files st files; count_walk st' r
  end.

(** The last loop: the first type whose count is the largest; when the loop
    ends without a break, [likely_type] is unbound at the [return]. *)
Fixpoint first_with (counter : dict nat) (max_value : nat) (ts : list str) : res str :=
  match ts with
  | [] => Raise (NameError "likely_type")
  | t :: r =>
      n ← dict_item t counter;
      if Nat.eqb n max_value then Ok t else first_with counter max_value r
  end.

(** [inspect_directory], as a function of what [os.walk] yields. *)
Definition inspect_directory (walk : list (str * list str * list str))
    : res (str * dict (list str)) :=
  let types := [s_ "textgrid"; s_ "text"; s_ "multiple"] in
  let counter := fold_left (fun d x => dict_set x 0 d) types [] in
  let relevant_files := fold_left (fun d x => dict_set x [] d) types [] in
  st ← count_walk (counter, relevant_files) walk;
  max_value ← py_max (fun n => n) (values (fst st));
  likely_type ← first_with (fst st) max_value [s_ "textgrid"; s_ "multiple"; s_ "text"];
  Ok (likely_type, snd st).

(** ** text_to_lines *)

(** The characters at which [str.splitlines] ends a line. *)
Definition is_linebreak (c : ascii) : bool :=
  let n := code c in
  in_range 10 13 n || in_range 28 30 n || Nat.eqb n 133.

(** [str.splitlines]: [cur] is the line being read; after a carriage
    return a line feed belongs to the same line end ([after_cr]).  A last
    line without line end is a line when it is not empty. *)
Fixpoint splitlines_go (cur : str) (after_cr : bool) (s : str) : list str :=
  match s with
  | [] => if is_empty cur then [] else [cur]
  | c :: r =>
      if after_cr && Nat.eqb (code c) 10 then splitlines_go cur false r
      else if is_linebreak c then cur :: splitlines_go [] (Nat.eqb (code c) 13) r
      else splitlines_go (cur ++ [c]) false r
  end.

Definition splitlines (s : str) : list str := splitlines_go [] false s.

(** [str.lstrip], [str.rstrip] and [str.strip] without argument. *)
Fixpoint lstrip (s : str) : str :=
  match s with
  | [] => []
  | c :: r => if is_space c then lstrip r else s
  end.

Definition rstrip (s : str) : str := rev (lstrip (rev s)).

Definition strip (s : str) : str := rstrip (lstrip s).

(** [str.split(None)]: the words between runs of white space. *)
Fixpoint split_space_go (cur : str) (s : str) : list str :=
  match s with
  | [] => if is_empty cur then [] else [cur]
  | c :: r =>
      if is_space c
      then (if is_empty cur then split_space_go [] r else cur :: split_space_go [] r)
      else split_space_go (cur ++ [c]) r
  end.

Definition split_space (s : str) : list str := split_space_go [] s.

(** [text_to_lines], as a function of the text read from the file.  The
    delimiter is None throughout, so the test that raises [DelimiterError]
    is never taken. *)
Definition text_to_lines (text : str) : list (list str) :=
  map (fun x => split_space (strip x))
    (List.filter (fun x => negb (str_eqb (strip x) [])) (splitlines text)).

(** ** get_corpora_list *)

(** [get_corpora_list], as a function of what [os.listdir(corpus_dir)]
    returns: [[x.split('.')[0] for x in listing]]. *)
Fixpoint get_corpora_list (listing : list str) : res (list str) :=
  match listing with
  | [] => Ok []
  | x :: r =>
      parts ← str_split (s_ ".") x;
      n ← list_item parts 0;
      corpora ← get_corpora_list r;
      Ok (n :: corpora)
  end.

(** ** Definitions used by the statements *)

(** The number a numeric value stands for: itself, or what [float] reads of
    a string. *)
Definition as_number (py_float : str -> option Q) (v : value) : option Q :=
  match v with
  | VNum x => Some x
  | VStr s => py_float s
  | _ => None
  end.

(** The minimum and the maximum of the non-empty sequence [x :: xs]. *)
Definition seq_min (x : Q) (xs : list Q) : Q := fold_left Qmin xs x.

Definition seq_max (x : Q) (xs : list Q) : Q := fold_left Qmax xs x.

(** A numeric attribute as [Attribute.__init__] builds it. *)
Definition fresh_numeric : Attribute :=
  mkAttribute (s_ "duration") numeric None (VNum 0) (RPair 0 0) None.

(** A tier attribute as [Attribute.__init__] builds it: its default value is
    the empty list. *)
Definition fresh_tier : Attribute :=
  mkAttribute (s_ "transcription") tier None (VList []) (RSet []) None.

(** The labels of the segments a call returned. *)
Definition labels (r : res (list BaseAnnotation)) : res (list str) :=
  match r with
  | Ok l => Ok (map label l)
  | Raise e => Raise e
  end.

(** A base tier of speaker "A", named "A - phones", as the constructor builds
    it, holding one annotation. *)
Definition speaker_tier : res AnnotationType :=
  t ← AnnotationType_init (s_ "A - phones") None None
        [("base", ABool true); ("token", ABool true);
         ("speaker", AStr (Some (s_ "A")))]%string;
  Ok (add t [IDict [(s_ "label", DValue (VStr (s_ "k")))]] true).

(** The discourse that holds the tiers [levels], when they could be built. *)
Definition discourse_of (levels : list (res AnnotationType)) : DiscourseData :=
  DiscourseData_init (s_ "discourse")
    (flat_map (fun r => match r with Ok t => [t] | Raise _ => [] end) levels).

(** A corpus with one earlier import, and a two-tier untimed discourse. *)
Definition sample_context : Corpus.CorpusContext unit :=
  Corpus.mkCorpusContext unit (s_ "corpus") {[ s_ "syllable" ]} true
    {[ s_ "syllable" := Some (s_ "word") ]} tt.

Definition sample_data : Corpus.Data :=
  Corpus.mkData (s_ "discourse") None [s_ "word"; s_ "phone"] false [s_ "words"]
    (<[ s_ "words" := Corpus.mkTier None true ]>
       (<[ s_ "phone" := Corpus.mkTier (Some (s_ "words")) false ]> ∅)).

(** Store operations that succeed and leave the stores as they are. *)
Definition no_store_effect (data : Corpus.Data) (st : unit) : res unit := Ok st.

(** The non-empty strings of a list. *)
Definition nonempties (l : list str) : list str :=
  List.filter (fun x => negb (is_empty x)) l.


(** [d] does not occur in [p]. *)
Definition nod (d p : str) : Prop :=
  forall j, is_prefix d (skipn j p) = false.


(** A tier is grounded when its chain of supertypes ends at a word-anchor
    tier or at a tier without supertype, passing only through tiers that are
    not base. *)
Inductive grounded (d : DiscourseData) : str -> Prop :=
| grounded_anchor (k : str) (v : AnnotationType) :
    In (k, v) (data d) -> is_word_anchor v = true -> grounded d k
| grounded_root (k : str) (v : AnnotationType) :
    In (k, v) (data d) -> base v = false -> supertype v = None -> grounded d k
| grounded_step (k s : str) (v : AnnotationType) :
    In (k, v) (data d) -> base v = false -> supertype v = Some s ->
    grounded d s -> grounded d k.

(** The names of the tiers that are not base. *)
Definition nonbase_levels (d : DiscourseData) : list str :=
  map fst (List.filter (fun kv => negb (base (snd kv))) (data d)).

(** Two tiers that are each other's supertype. *)
Definition two_cycle : DiscourseData :=
  discourse_of [AnnotationType_init (s_ "A") None (Some (s_ "B")) [];
                AnnotationType_init (s_ "B") None (Some (s_ "A")) []].

(** A word tier, a base tier of phones under it, and a tier of tones whose
    supertype is the base tier. *)
Definition through_base : DiscourseData :=
  discourse_of [AnnotationType_init (s_ "word") None None [("anchor", ABool true)]%string;
                AnnotationType_init (s_ "phone") None (Some (s_ "word"))
                  [("base", ABool true)]%string;
                AnnotationType_init (s_ "tone") None (Some (s_ "phone")) []].

(** A word tier that is itself base, and a tier of lines without supertype. *)
Definition base_anchor : DiscourseData :=
  discourse_of [AnnotationType_init (s_ "word") None None
                  [("anchor", ABool true); ("base", ABool true)]%string;
                AnnotationType_init (s_ "line") None None []].

(** A word tier, a tier of syllables under it, a tier of morphemes under the
    syllables, listed before them, and a base tier of phones. *)
Definition three_levels : DiscourseData :=
  discourse_of [AnnotationType_init (s_ "morpheme") None (Some (s_ "syllable")) [];
                AnnotationType_init (s_ "syllable") None (Some (s_ "word")) [];
                AnnotationType_init (s_ "word") None None [("anchor", ABool true)]%string;
                AnnotationType_init (s_ "phone") None (Some (s_ "syllable"))
                  [("base", ABool true)]%string].

(** What the loop of [process_order] keeps true of [order]: no name twice,
    only names of tiers that are not base, and every word level. *)
Definition order_ok (d : DiscourseData) (order : list str) : Prop :=
  List.NoDup order /\ incl order (nonbase_levels d) /\ incl (word_levels d) order.

(** Sorted by decreasing length. *)
Definition by_len_desc (l : list str) : Prop :=
  StronglySorted (fun a b => length b <= length a) l.


(** ** Further definitions used by the statements *)

(** The text a search pass went through: the matches and the characters
    between them, in order. *)
Definition flatten_events (evs : list event) : str :=
  flat_map (fun e => match e with Hit t => t | Gap c => [c] end) evs.

(** No character of [t] is white space. *)
Definition no_space (t : str) : bool := forallb (fun c => negb (is_space c)) t.

(** The text after the ignored characters of the tier are removed. *)
Definition strip_ignored (t : AnnotationType) (s : str) : str :=
  match ignored_characters t with
  | Some ig => List.filter (fun x => negb (existsb (ascii_eqb x) ig)) s
  | None => s
  end.

(** The field of a segment that the numeric-suffix policy [p] writes. *)
Definition number_of (p : number_policy) (a : BaseAnnotation) : option str :=
  match p with
  | stress_policy => stress a
  | tone_policy => tone a
  end.

(** The digits a token carries, as the loop of [parse_transcription] reads
    them: [None] when it carries none. *)
Definition digits_of (seg : str) : option str :=
  if is_empty (List.filter is_digit seg) then None else Some (List.filter is_digit seg).


(** An order built from the word levels [W] by placing tiers one at a time:
    each placed tier is a tier of the discourse that is not base, is not in
    the order yet, and has no supertype or a supertype that is already in the
    order. *)
Inductive ordered_from (d : DiscourseData) (W : list str) : list str -> Prop :=
| ordered_base : ordered_from d W W
| ordered_snoc (order : list str) (k : str) (v : AnnotationType) :
    ordered_from d W order ->
    In (k, v) (data d) -> base v = false -> ~ In k order ->
    (supertype v = None \/ exists s, supertype v = Some s /\ In s order) ->
    ordered_from d W (order ++ [k]).

(** A discourse with one tier without speaker. *)
Definition no_speaker : DiscourseData :=
  discourse_of [AnnotationType_init (s_ "word") None None [("anchor", ABool true)]%string].

(** A tier named [n] without content, a token tier when [tok], ignored when
    [ign]. *)
Definition plain_tier (n : str) (tok : bool) (ign : bool) : AnnotationType :=
  mkAnnotationType [] (Some []) [] None [] None [] n None None tok false false None ign n
    (mkAttribute (sanitize_name n) spelling (Some n) (VStr []) RNone None).

(** The range of an attribute has the shape of its type: a pair [lo, hi]
    with lo <= hi for a numeric attribute, a set for a factor or a tier, None
    for a spelling. *)
Definition shape_ok (a : Attribute) : Prop :=
  match att_kind a, _range a with
  | numeric, RPair lo hi => (lo <= hi)%Q
  | factor, RSet _ => True
  | tier, RSet _ => True
  | spelling, RNone => True
  | _, _ => False
  end.


(** What [Annotation.__getitem__] is to return for a keyword argument. *)
Definition bounds_of (k : option kwarg) : option (Z * Z) :=
  match k with
  | Some (KTuple (b :: e :: _)) => Some (b, e)
  | _ => None
  end.



(** The keyword arguments of an annotation with two references and another
    attribute, and the annotation the constructor builds from them. *)
Definition word_kwargs : dict kwarg :=
  [(s_ "phone", KTuple [0; 3]%Z); (s_ "token", KOther VNone);
   (s_ "syllable", KTuple [0; 1; 7]%Z)].

Definition word_with_references : Annotation :=
  mkAnnotation (s_ "cat") [0; 0]%Z [3; 1]%Z [s_ "phone"; s_ "syllable"] [] [].




(** The files of a walk, in the order the loop meets them. *)
Definition walked_files (walk : list (str * list str * list str)) : list str :=
  flat_map (fun e => snd e) walk.

(** The files of a list that [inspect_directory] counts under the type
    [t]. *)
Definition files_of_type (t : str) (files : list str) : list str :=
  List.filter (fun f => match file_type f with
                        | Some t' => str_eqb t' t
                        | None => false
                        end) files.

(** The counts and the lists of [inspect_directory] after the loop has met
    the files [files]. *)
Definition counted (files : list str) : dict nat * dict (list str) :=
  ([(s_ "textgrid", length (files_of_type (s_ "textgrid") files));
    (s_ "text", length (files_of_type (s_ "text") files));
    (s_ "multiple", length (files_of_type (s_ "multiple") files))],
   [(s_ "textgrid", files_of_type (s_ "textgrid") files);
    (s_ "text", files_of_type (s_ "text") files);
    (s_ "multiple", files_of_type (s_ "multiple") files)]).

(** *** The tiers on which joining the labels and tokenizing again is safe *)

(** The string holds a digit. *)
Definition has_digit (d : str) : bool := existsb is_digit d.

(** A morpheme delimiter of one character that a pattern reads literally. *)
Definition single_literal (m : str) : bool :=
  match m with
  | [c] => negb (is_meta c)
  | _ => false
  end.

(** The character is one of the morpheme delimiters. *)
Definition morph_char (md : list str) (c : ascii) : bool :=
  existsb (fun m => str_eqb m [c]) md.

(** The character is one of the ignored characters of the tier. *)
Definition ignored_char (t : AnnotationType) (c : ascii) : bool :=
  match ignored_characters t with
  | Some ig => existsb (ascii_eqb c) ig
  | None => false
  end.

(** Joining labels with [d] can create no new occurrence of [d]: the tier
    splits once and strips no digit, or [d] is one character, or digits are
    stripped and [d] holds one, or [d] holds an ignored character. *)
Definition delimiter_safe (t : AnnotationType) (d : str) : Prop :=
  (morph_delimiters t = [] /\ number_behavior t = None)
  \/ length d = 1
  \/ (number_behavior t <> None /\ has_digit d = true)
  \/ (exists c, In c d /\ ignored_char t c = true).

(** The morpheme delimiters do not interfere with the joined labels: there
    are none, or each is one literal character and [d] is one of them, or
    shares no character with them nor with the ignored characters. *)
Definition morphs_safe (t : AnnotationType) (d : str) : Prop :=
  morph_delimiters t = []
  \/ (forallb single_literal (morph_delimiters t) = true
      /\ (In d (morph_delimiters t)
          \/ (forall c, In c d ->
                morph_char (morph_delimiters t) c = false /\ ignored_char t c = false))).


(** The round trip fails on the string [s]: both passes return, and the
    segments of the second are not equal to those of the first. *)
Definition roundtrip_fails (t : AnnotationType) (d s : str) : Prop :=
  exists segs segs',
    parse_transcription s t = Ok segs
    /\ parse_transcription (join d (map label segs)) t = Ok segs'
    /\ segments_eq segs' segs = false.
(** * Properties *)

(** ** Attribute *)

Lemma fresh_numeric_init :
  Attribute_init (s_ "duration") numeric None VNone = Ok fresh_numeric.
Proof. reflexivity. Qed.

Lemma fresh_tier_init :
  Attribute_init (s_ "transcription") tier None VNone = Ok fresh_tier.
Proof. reflexivity. Qed.

Lemma Qltb_lt (x y : Q) : Qltb x y = true <-> (x < y)%Q.
Proof.
  unfold Qltb. rewrite Qlt_alt. destruct (Qcompare x y); split; congruence.
Qed.

Lemma Qltb_ge (x y : Q) : Qltb x y = false <-> (y <= x)%Q.
Proof.
  split; intros H.
  - apply Qnot_lt_le. intros L. apply Qltb_lt in L. congruence.
  - destruct (Qltb x y) eqn:E; [|reflexivity].
    apply Qltb_lt in E. exfalso. apply (Qlt_not_le _ _ E H).
Qed.

Lemma Qmin_code (lo x : Q) : Qmin lo x = if Qltb x lo then x else lo.
Proof.
  unfold Qmin, GenericMinMax.gmin, Qltb.
  rewrite <- (Qcompare_antisym lo x). destruct (Qcompare lo x); reflexivity.
Qed.

Lemma Qmax_code (hi x : Q) : Qmax hi x = if Qltb hi x then x else hi.
Proof.
  unfold Qmax, GenericMinMax.gmax, Qltb. destruct (Qcompare hi x); reflexivity.
Qed.

Lemma set_range_same (a : Attribute) (r : range) : _range a = r -> set_range a r = a.
Proof. intros <-. destruct a; reflexivity. Qed.

(** One numeric update widens the bound it touches. *)
Lemma widen_spec (a : Attribute) (lo hi x : Q) :
  _range a = RPair lo hi -> (lo <= hi)%Q ->
  widen a x = Ok (set_range a (RPair (Qmin lo x) (Qmax hi x)))
  /\ (Qmin lo x <= Qmax hi x)%Q.
Proof.
  intros R L. unfold widen. rewrite R. simpl.
  rewrite Qmin_code, Qmax_code.
  destruct (Qltb x lo) eqn:E1.
  - apply Qltb_lt in E1.
    assert (E2 : Qltb hi x = false) by (apply Qltb_ge; lra).
    rewrite E2. split; [reflexivity | lra].
  - apply Qltb_ge in E1. destruct (Qltb hi x) eqn:E2.
    + apply Qltb_lt in E2. split; [reflexivity | lra].
    + apply Qltb_ge in E2. split; [|lra].
      now rewrite set_range_same.
Qed.

Lemma update_range_number (py_float : str -> option Q) (a : Attribute) (v : value) (x : Q) :
  att_kind a = numeric -> as_number py_float v = Some x ->
  update_range py_float a v = widen a x.
Proof.
  intros K N. unfold update_range. rewrite K.
  destruct v as [|q|s|l]; simpl in N; try discriminate.
  - congruence.
  - rewrite N. reflexivity.
Qed.

Lemma update_all_numbers (py_float : str -> option Q) (vs : list value) :
  forall (xs : list Q) (a : Attribute) (lo hi : Q),
  att_kind a = numeric -> _range a = RPair lo hi -> (lo <= hi)%Q ->
  map (as_number py_float) vs = map Some xs ->
  update_all py_float a vs
  = Ok (set_range a (RPair (fold_left Qmin xs lo) (fold_left Qmax xs hi))).
Proof.
  induction vs as [|v vs IH]; intros [|x xs] a lo hi K R L M; simpl in M;
    try discriminate.
  - simpl. now rewrite set_range_same.
  - injection M as Mv Mvs. simpl.
    rewrite (update_range_number py_float a v x K Mv).
    destruct (widen_spec a lo hi x R L) as [-> L']. simpl.
    rewrite (IH xs (set_range a (RPair (Qmin lo x) (Qmax hi x)))
               (Qmin lo x) (Qmax hi x)); auto.
Qed.

(** A spelling attribute ignores every update. *)
Lemma update_all_spelling (py_float : str -> option Q) (ws : list value) (a : Attribute) :
  att_kind a = spelling -> update_all py_float a ws = Ok a.
Proof.
  intros K. induction ws as [|w ws IH]; simpl; [reflexivity|].
  assert (E : update_range py_float a w = Ok a).
  { unfold update_range. rewrite K. destruct w; reflexivity. }
  rewrite E. simpl. exact IH.
Qed.

(** C4 (as the claim states it, refuted): on a numeric attribute as the
    constructor builds it, updating with the single value 5 leaves the range
    [0, 5], which is not (min, max) = (5, 5) of the sequence. *)
Lemma update_range_minmax_counterexample :
  exists a',
    update_all (fun _ => None) fresh_numeric [VNum 5] = Ok a'
    /\ _range a' = RPair 0 5
    /\ _range a' <> RPair (seq_min 5 []) (seq_max 5 []).
Proof.
  eexists. split; [reflexivity|]. split; [reflexivity|].
  simpl. unfold seq_min, seq_max. simpl. intros H. discriminate H.
Qed.

(** C4 (amended): on a numeric attribute whose range is [lo, hi] with
    lo <= hi ([0, 0] after the constructor), updating with a sequence of
    numeric values leaves the range (min(lo, values), max(hi, values)); one
    string that is no number then makes the attribute spelling-typed with
    range None, and no later sequence of updates changes it again. *)
Theorem update_range_widens_then_downgrades
    (py_float : str -> option Q) (a : Attribute) (lo hi : Q)
    (vs : list value) (xs : list Q) (s : str) (ws : list value) :
  att_kind a = numeric -> _range a = RPair lo hi -> (lo <= hi)%Q ->
  map (as_number py_float) vs = map Some xs ->
  py_float s = None ->
  exists a1 a2,
    update_all py_float a vs = Ok a1
    /\ att_kind a1 = numeric
    /\ _range a1 = RPair (fold_left Qmin xs lo) (fold_left Qmax xs hi)
    /\ update_range py_float a1 (VStr s) = Ok a2
    /\ att_kind a2 = spelling /\ _range a2 = RNone
    /\ update_all py_float a2 ws = Ok a2.
Proof.
  intros K R L M F.
  exists (set_range a (RPair (fold_left Qmin xs lo) (fold_left Qmax xs hi))).
  eexists. split; [apply (update_all_numbers py_float vs xs a lo hi K R L M)|].
  split; [exact K|]. split; [reflexivity|].
  split; [unfold update_range; simpl; rewrite K, F; reflexivity|].
  split; [reflexivity|]. split; [reflexivity|].
  apply update_all_spelling. reflexivity.
Qed.

Lemma update_range_widens_then_downgrades_witness :
  exists a1 a2,
    update_all (fun _ => None) fresh_numeric [VNum 5; VNum (-2); VNum 3] = Ok a1
    /\ att_kind a1 = numeric
    /\ _range a1 = RPair (fold_left Qmin [5; -2; 3]%Q 0%Q) (fold_left Qmax [5; -2; 3]%Q 0%Q)
    /\ update_range (fun _ => None) a1 (VStr (s_ "n/a")) = Ok a2
    /\ att_kind a2 = spelling /\ _range a2 = RNone
    /\ update_all (fun _ => None) a2 [VNum 7; VStr (s_ "8")] = Ok a2.
Proof.
  apply (update_range_widens_then_downgrades (fun _ => None) fresh_numeric 0%Q 0%Q
           [VNum 5; VNum (-2); VNum 3] [5; -2; 3]%Q (s_ "n/a") [VNum 7; VStr (s_ "8")]);
    try reflexivity.
  unfold Qle; simpl; lia.
Defined.

(** C10 (as the claim states it, refuted): a list has no hash, so assigning
    the empty list as default value - the default the constructor itself gives
    a tier attribute - raises [TypeError] and no range is set. *)
Lemma default_value_setter_counterexample :
  default_value_setter fresh_tier (VList []) = Raise (TypeError "unhashable type")
  /\ ~ (exists a', default_value_setter fresh_tier (VList []) = Ok a'
                   /\ _range a' = RSet [VList []]).
Proof.
  split; [reflexivity|]. intros [a' [H _]]. discriminate H.
Qed.

(** C10 (amended): for an attribute of any type and any hashable value v
    (None, a number or a string), the default_value setter returns and leaves
    the range equal to the one-element set {v} and the default value equal
    to v. *)
Theorem default_value_setter_range (a : Attribute) (v : value) :
  hashable v = true ->
  exists a', default_value_setter a v = Ok a'
             /\ _range a' = RSet [v] /\ _default_value a' = v
             /\ att_kind a' = att_kind a.
Proof.
  intros H. unfold default_value_setter, singleton_set. rewrite H. simpl.
  eexists. split; [reflexivity|]. repeat split.
Qed.

Lemma default_value_setter_range_witness :
  exists a', default_value_setter fresh_numeric (VNum 3) = Ok a'
             /\ _range a' = RSet [VNum 3] /\ _default_value a' = VNum 3
             /\ att_kind a' = att_kind fresh_numeric.
Proof.
  apply (default_value_setter_range fresh_numeric (VNum 3)). reflexivity.
Defined.

(** C8: [guess_type] never returns a type.  The name [operator] is not among
    the modules the file imports, so the return statement raises [NameError]
    after the loop, whatever the sample and the delimiters. *)
Theorem guess_type_unbound_operator
    (py_float : str -> option Q) (values : list str) (trans_delimiters : option (list str)) :
  guess_type py_float values trans_delimiters = Raise (NameError "operator").
Proof. reflexivity. Qed.

(** What the loop has counted when the return statement is reached, on a
    sample of four spellings of which two are equal, and the item [max] would
    select were [operator] bound: ties go to the first type in the order of
    [ATT_TYPES]. *)
Example count_types_sample :
  count_types (fun _ => None) DEFAULT_TRANS_DELIMITERS
    [s_ "cat"; s_ "k.ae.t"; s_ "dog"; s_ "dog"]
  = [(spelling, 1); (tier, 1); (numeric, 0); (factor, 2)]
  /\ py_max snd [(spelling, 2); (tier, 2); (numeric, 0); (factor, 2)] = Ok (spelling, 2).
Proof. split; reflexivity. Qed.

(** ** The transcription tokenizer *)

(** C2: [parse_transcription] is not total.  With a numeric-suffix policy
    and a transcription that starts with a digit, the first token is left
    empty by the stripping of digits and [final_string[-1]] is read on an
    empty list: [IndexError]. *)
Theorem parse_transcription_leading_digit :
  parse_transcription (s_ "1") (tier_config (Some []) [] None [] (Some stress_policy))
  = Raise IndexError.
Proof. vm_compute. reflexivity. Qed.

(** Two more inputs on which the call raises: an empty transcription
    delimiter ([str.split] refuses an empty separator), and an empty morpheme
    delimiter, which occurs in every string, so that the call on a morph never
    stops calling itself. *)
Lemma parse_transcription_raises_more :
  parse_transcription (s_ "a b") (tier_config (Some []) [] (Some []) [] None)
  = Raise ValueError
  /\ parse_transcription [] (tier_config (Some []) [] None [[]] None)
     = Raise RecursionError.
Proof. split; vm_compute; reflexivity. Qed.

(** On the empty string, a tier without an empty delimiter yields no
    segment. *)
Lemma parse_transcription_empty_string :
  parse_transcription [] (tier_config (Some []) [] None [] None) = Ok []
  /\ parse_transcription [] (tier_config (Some []) [s_ "ts"] None [] None) = Ok []
  /\ parse_transcription [] (tier_config (Some []) [] (Some (s_ ".")) [] None) = Ok [].
Proof. repeat split; vm_compute; reflexivity. Qed.

(** *** Digraphs: the longest match first *)

Lemma is_prefix_length (d s : str) : is_prefix d s = true -> length d <= length s.
Proof.
  revert s; induction d as [|x d IH]; intros [|y s]; simpl; intros H;
    try discriminate; try lia.
  apply andb_true_iff in H as [_ H]. apply IH in H. lia.
Qed.

Lemma insert_by_len_In (x y : str) (l : list str) :
  In y (insert_by_len x l) <-> y = x \/ In y l.
Proof.
  induction l as [|z l IH]; simpl.
  - intuition congruence.
  - destruct (length z <? length x); simpl; [intuition congruence|].
    rewrite IH. intuition congruence.
Qed.

Lemma insert_by_len_sorted (x : str) (l : list str) :
  by_len_desc l -> by_len_desc (insert_by_len x l).
Proof.
  unfold by_len_desc. induction l as [|z l IH]; intros S; simpl.
  - constructor; constructor.
  - inversion S as [|? ? S' F]; subst.
    destruct (length z <? length x) eqn:E.
    + apply Nat.ltb_lt in E. constructor; [exact S|].
      constructor; [lia|]. rewrite List.Forall_forall in *. intros w Hw.
      specialize (F w Hw). lia.
    + apply Nat.ltb_ge in E. constructor; [apply IH; exact S'|].
      rewrite List.Forall_forall in *. intros w Hw.
      apply insert_by_len_In in Hw as [->|Hw]; [exact E | exact (F w Hw)].
Qed.

Lemma sort_fold_spec (l acc : list str) :
  by_len_desc acc ->
  by_len_desc (fold_left (fun a x => insert_by_len x a) l acc)
  /\ forall y, In y (fold_left (fun a x => insert_by_len x a) l acc) <-> In y l \/ In y acc.
Proof.
  revert acc; induction l as [|x l IH]; intros acc S; simpl.
  - split; [exact S | intuition].
  - destruct (IH (insert_by_len x acc) (insert_by_len_sorted x acc S)) as [S' M].
    split; [exact S'|]. intros y. rewrite M, insert_by_len_In. intuition congruence.
Qed.

Lemma sort_by_len_desc_sorted (l : list str) : by_len_desc (sort_by_len_desc l).
Proof. apply sort_fold_spec. constructor. Qed.

Lemma sort_by_len_desc_In (l : list str) (y : str) :
  In y (sort_by_len_desc l) <-> In y l.
Proof.
  unfold sort_by_len_desc.
  destruct (sort_fold_spec l [] (SSorted_nil _)) as [_ M]. rewrite M. simpl. intuition.
Qed.

(** Among literals sorted by decreasing length, the alternation selects a
    longest one that matches. *)
Lemma first_match_literals (L : list str) (rest : list atom) (s : str) :
  by_len_desc L ->
  (exists d, In d L /\ is_prefix d s = true) ->
  exists t, first_match true (map Lit L ++ rest) s = Some t
            /\ In t L /\ is_prefix t s = true
            /\ forall d, In d L -> is_prefix d s = true -> length d <= length t.
Proof.
  unfold by_len_desc. induction L as [|x L IH]; intros S [d [Hd Hp]]; [destruct Hd|].
  inversion S as [|? ? S' F]; subst. simpl.
  destruct (is_prefix x s) eqn:E.
  - exists x. split; [reflexivity|]. split; [now left|]. split; [exact E|].
    intros d' [->|Hd'] _; [lia|]. rewrite List.Forall_forall in F. exact (F d' Hd').
  - destruct Hd as [->|Hd]; [congruence|].
    destruct (IH S' (ex_intro _ d (conj Hd Hp))) as [t [M [I [P B]]]].
    exists t. split; [exact M|]. split; [now right|]. split; [exact P|].
    intros d' [->|Hd'] Hp'; [congruence | exact (B d' Hd' Hp')].
Qed.

Lemma scan_skip (alts : list atom) (k : nat) :
  forall s, k <= length s -> scan alts k s = scan alts 0 (skipn k s).
Proof.
  induction k as [|k IH]; intros s H; [reflexivity|].
  destruct s as [|c r]; simpl in H; [lia|]. simpl. apply IH. lia.
Qed.

(** A non-empty match at the start of the text is the first token that
    [findall] returns, and the search goes on after it. *)
Lemma findall_first (alts : list atom) (s t : str) :
  first_match true alts s = Some t -> t <> [] -> length t <= length s ->
  findall alts s = t :: findall alts (skipn (length t) s).
Proof.
  intros M N L. unfold findall. destruct s as [|c r].
  - destruct t; [congruence | simpl in L; lia].
  - simpl. rewrite M. destruct t as [|x t']; [congruence|].
    simpl. rewrite Nat.sub_0_r. rewrite scan_skip; [reflexivity|].
    simpl in L. lia.
Qed.

(** C7: digraphs are matched longest first.  At any position of the text
    where some digraph of the set matches, the pattern that
    [compile_digraphs] builds matches a digraph of the set that is at least as
    long as every digraph matching there, and when it is not empty it is the
    token [findall] returns; with the digraphs "ts" and "t" (in either order
    of the set) and no delimiter, "tsa" is tokenized as "ts", "a". *)
Theorem digraph_longest_match :
  (forall (ds : list str) (s d : str),
     In d ds -> is_prefix d s = true ->
     exists t,
       first_match true (compile_digraphs ds) s = Some t
       /\ In t ds /\ is_prefix t s = true
       /\ (forall d', In d' ds -> is_prefix d' s = true -> length d' <= length t)
       /\ (t <> [] ->
           findall (compile_digraphs ds) s
           = t :: findall (compile_digraphs ds) (skipn (length t) s)))
  /\ labels (parse_transcription (s_ "tsa")
               (tier_config (Some []) [s_ "ts"; s_ "t"] None [] None))
     = Ok [s_ "ts"; s_ "a"]
  /\ labels (parse_transcription (s_ "tsa")
               (tier_config (Some []) [s_ "t"; s_ "ts"] None [] None))
     = Ok [s_ "ts"; s_ "a"].
Proof.
  split; [|split; vm_compute; reflexivity].
  intros ds s d Hd Hp. unfold compile_digraphs.
  destruct (first_match_literals (sort_by_len_desc ds) [Digits; NonSpace] s
              (sort_by_len_desc_sorted ds)) as [t [M [I [P B]]]].
  { exists d. split; [now apply sort_by_len_desc_In | exact Hp]. }
  exists t. split; [exact M|]. split; [now apply sort_by_len_desc_In|].
  split; [exact P|]. split.
  - intros d' Hd' Hp'. apply B; [now apply sort_by_len_desc_In | exact Hp'].
  - intros N. apply findall_first; [exact M | exact N | now apply is_prefix_length].
Qed.

Lemma digraph_longest_match_witness :
  exists t,
    first_match true (compile_digraphs [s_ "t"; s_ "ts"]) (s_ "tsa") = Some t
    /\ In t [s_ "t"; s_ "ts"] /\ is_prefix t (s_ "tsa") = true
    /\ (forall d', In d' [s_ "t"; s_ "ts"] -> is_prefix d' (s_ "tsa") = true ->
                   length d' <= length t)
    /\ (t <> [] ->
        findall (compile_digraphs [s_ "t"; s_ "ts"]) (s_ "tsa")
        = t :: findall (compile_digraphs [s_ "t"; s_ "ts"]) (skipn (length t) (s_ "tsa"))).
Proof.
  apply (proj1 digraph_longest_match [s_ "t"; s_ "ts"] (s_ "tsa") (s_ "t")).
  - simpl. left. reflexivity.
  - reflexivity.
Defined.

(** ** DiscourseData: speaker collapse *)

Lemma insert_sorted_nonempty (x : str) (l : list str) : insert_sorted x l <> [].
Proof. destruct l as [|y l]; simpl; [|destruct (str_ltb x y)]; discriminate. Qed.

Lemma insert_sorted_In (x y : str) (l : list str) :
  In y (insert_sorted x l) -> y = x \/ In y l.
Proof.
  induction l as [|z l IH]; simpl.
  - intuition congruence.
  - destruct (str_ltb x z); simpl; intuition congruence.
Qed.

Lemma sorted_fold_spec (l acc : list str) :
  let r := fold_left (fun acc x => if str_in x acc then acc else insert_sorted x acc) l acc in
  (forall y, In y r -> In y l \/ In y acc)
  /\ (acc <> [] \/ l <> [] -> r <> []).
Proof.
  revert acc; induction l as [|x l IH]; intros acc; simpl.
  - split; [intuition | intros [H|H]; congruence].
  - destruct (IH (if str_in x acc then acc else insert_sorted x acc)) as [M N].
    split.
    + intros y Hy. apply M in Hy as [Hy|Hy]; [intuition|].
      destruct (str_in x acc); [intuition|].
      apply insert_sorted_In in Hy. intuition congruence.
    + intros _. apply N. left. destruct (str_in x acc) eqn:E.
      * intros ->. discriminate E.
      * apply insert_sorted_nonempty.
Qed.

Lemma str_eqb_eq (a b : str) : str_eqb a b = true <-> a = b.
Proof.
  revert b; induction a as [|x a IH]; intros [|y b]; simpl; split; intros H;
    try discriminate; try reflexivity.
  - apply andb_true_iff in H as [H1 H2]. apply Ascii.eqb_eq in H1.
    apply IH in H2. congruence.
  - injection H as -> ->. apply andb_true_iff. split.
    + apply Ascii.eqb_refl.
    + now apply IH.
Qed.

Lemma str_eqb_refl (a : str) : str_eqb a a = true.
Proof. now apply str_eqb_eq. Qed.

Lemma str_eqb_neq (a b : str) : str_eqb a b = false <-> a <> b.
Proof.
  split.
  - intros H E. apply str_eqb_eq in E. congruence.
  - intros H. destruct (str_eqb a b) eqn:E; [|reflexivity].
    apply str_eqb_eq in E. contradiction.
Qed.

(** A discourse in which some tier has a speaker has a tier to merge. *)
Lemma merge_keys_nonempty (d : DiscourseData) :
  (exists k t, In (k, t) (data d) /\ speaker t <> None) -> merge_keys d <> [].
Proof.
  intros [k [t [Hin Hsp]]]. unfold merge_keys.
  set (sps := flat_map (fun x => match speaker x with Some s => [s] | None => [] end)
                (values (data d))).
  destruct (sorted_fold_spec sps []) as [M N]. fold (sorted_set sps) in M, N.
  assert (Hne : sps <> []).
  { destruct (speaker t) as [s|] eqn:E; [|congruence].
    assert (I : In s sps).
    { apply in_flat_map. exists t. split.
      - unfold values. apply (in_map snd) in Hin. exact Hin.
      - rewrite E. now left. }
    intros Z. rewrite Z in I. destruct I. }
  specialize (N (or_intror Hne)).
  destruct (sorted_set sps) as [|s0 rest] eqn:Es; [congruence|].
  assert (I0 : In s0 sps).
  { destruct (M s0) as [I|I]; [now left | exact I | destruct I]. }
  apply in_flat_map in I0 as [t0 [Ht0 Hs0]].
  destruct (speaker t0) as [s|] eqn:E0; [|destruct Hs0].
  destruct Hs0 as [<-|[]].
  unfold values in Ht0. apply in_map_iff in Ht0 as [[k0 t0'] [Eq Hin0]].
  simpl in Eq. subst t0'.
  simpl. intros Z. apply app_eq_nil in Z as [Z _]. apply app_eq_nil in Z as [Z1 Z2].
  assert (Own : In (k0, t0)
                  (List.filter (fun kv => opt_str_eqb (speaker (snd kv)) (Some s)) (data d))).
  { apply filter_In. split; [exact Hin0|]. simpl. rewrite E0. simpl. apply str_eqb_refl. }
  destruct (base t0) eqn:B.
  - assert (I : In k0 (map fst (List.filter (fun kv => base (snd kv))
                  (List.filter (fun kv => opt_str_eqb (speaker (snd kv)) (Some s)) (data d))))).
    { apply (in_map fst) with (x := (k0, t0)). apply filter_In. split; [exact Own | exact B]. }
    rewrite Z2 in I. destruct I.
  - assert (I : In k0 (map fst (List.filter (fun kv => negb (base (snd kv)))
                  (List.filter (fun kv => opt_str_eqb (speaker (snd kv)) (Some s)) (data d))))).
    { apply (in_map fst) with (x := (k0, t0)). apply filter_In. split; [exact Own|].
      simpl. rewrite B. reflexivity. }
    rewrite Z1 in I. destruct I.
Qed.

(** The first tier to merge already makes the loop raise: its destination
    does not exist yet, and the call that creates it passes [delimited]. *)
Lemma merge_tiers_raises (d : DiscourseData) (k : str) (r : list str) (shifts : dict Z) :
  exists e, merge_tiers d (k :: r) [] shifts = Raise e
            /\ ((exists key, e = KeyError key)
                \/ e = TypeError "__init__() got an unexpected keyword argument delimited").
Proof.
  simpl. unfold dict_item. destruct (dict_get k (data d)) as [v|]; simpl.
  2:{ eexists. split; [reflexivity|]. left. eauto. }
  unfold merged_name, dict_item.
  destruct (subtype v) as [sub|]; simpl.
  - destruct (dict_get sub (data d)) as [tsub|]; simpl.
    2:{ eexists. split; [reflexivity|]. left. eauto. }
    destruct (supertype v) as [sup|]; simpl.
    + destruct (dict_get sup (data d)) as [tsup|]; simpl.
      2:{ eexists. split; [reflexivity|]. left. eauto. }
      eexists. split; [reflexivity|]. now right.
    + eexists. split; [reflexivity|]. now right.
  - destruct (supertype v) as [sup|]; simpl.
    + destruct (dict_get sup (data d)) as [tsup|]; simpl.
      2:{ eexists. split; [reflexivity|]. left. eauto. }
      eexists. split; [reflexivity|]. now right.
    + eexists. split; [reflexivity|]. now right.
Qed.

(** C1: [collapse_speakers] merges nothing.  On every discourse in which a
    tier has a speaker the call raises: the destination tier of the first tier
    to merge is created by [AnnotationType(..., delimited = v.delimited)], and
    [delimited] is no parameter of [AnnotationType.__init__] ([TypeError]); a
    subtype or supertype that names no tier raises [KeyError] before. *)
Theorem collapse_speakers_raises (d : DiscourseData) :
  (exists k t, In (k, t) (data d) /\ speaker t <> None) ->
  exists e, collapse_speakers d = Raise e
            /\ ((exists key, e = KeyError key)
                \/ e = TypeError "__init__() got an unexpected keyword argument delimited").
Proof.
  intros H. apply merge_keys_nonempty in H. unfold collapse_speakers.
  destruct (merge_keys d) as [|k r]; [congruence|].
  match goal with |- context [merge_tiers d (k :: r) [] ?sh] =>
    destruct (merge_tiers_raises d k r sh) as [e [E T]] end.
  exists e. rewrite E. split; [reflexivity | exact T].
Qed.

Lemma collapse_speakers_raises_witness :
  exists e, collapse_speakers (discourse_of [speaker_tier]) = Raise e
            /\ ((exists key, e = KeyError key)
                \/ e = TypeError "__init__() got an unexpected keyword argument delimited").
Proof.
  apply (collapse_speakers_raises (discourse_of [speaker_tier])).
  eexists. eexists. split; [vm_compute; left; reflexivity|]. simpl. discriminate.
Defined.

(** The call on the discourse that holds the one tier "A - phones" of speaker
    "A". *)
Example collapse_speakers_one_tier :
  collapse_speakers (discourse_of [speaker_tier])
  = Raise (TypeError "__init__() got an unexpected keyword argument delimited").
Proof. vm_compute. reflexivity. Qed.

(** ** CorpusContext.add_discourse *)

Lemma bind_ok {A B} (m : res A) (k : A -> res B) (b : B) :
  m ≫= k = Ok b -> exists a, m = Ok a /\ k a = Ok b.
Proof. destruct m as [a|e]; simpl; intros H; [eauto | discriminate]. Qed.

(** The loop over the output types adds exactly their names to the keys. *)
Lemma build_hierarchy_dom (data : Corpus.Data) (types : list str) :
  forall (h h' : gmap str (option str)),
  Corpus.build_hierarchy data types h = Ok h' ->
  dom h' = dom h ∪ list_to_set types.
Proof.
  induction types as [|x r IH]; intros h h' H; simpl in H.
  - injection H as <-. simpl. set_solver.
  - apply bind_ok in H as [e [_ H]]. apply IH in H. rewrite H.
    rewrite dom_insert_L. simpl. set_solver.
Qed.

(** C9: when [add_discourse] returns, the relationship types are the
    earlier ones united with the output types of the discourse, the timed flag
    is the flag of the discourse, and the hierarchy is the one built from the
    discourse alone, starting from the empty dict: its keys are exactly the
    output types, so that a key of an earlier import that is no output type of
    this discourse is gone. *)
Theorem add_discourse_frame (Stores : Type)
    (data_to_graph_csvs import_csvs update_sql_database add_acoustic_info
       : Corpus.Data -> Stores -> res Stores)
    (c c' : Corpus.CorpusContext Stores) (data : Corpus.Data) :
  Corpus.add_discourse Stores data_to_graph_csvs import_csvs update_sql_database
    add_acoustic_info c data = Ok c' ->
  Corpus.relationship_types Stores c'
  = Corpus.relationship_types Stores c ∪ list_to_set (Corpus.output_types data)
  /\ Corpus.ctx_is_timed Stores c' = Corpus.is_timed data
  /\ dom (Corpus.hierarchy Stores c') = list_to_set (Corpus.output_types data)
  /\ (forall x, x ∉ Corpus.output_types data -> Corpus.hierarchy Stores c' !! x = None)
  /\ Corpus.ctx_corpus_name Stores c' = Corpus.ctx_corpus_name Stores c.
Proof.
  unfold Corpus.add_discourse. intros H.
  apply bind_ok in H as [st1 [_ H]]. apply bind_ok in H as [st2 [_ H]].
  apply bind_ok in H as [st3 [_ H]]. apply bind_ok in H as [st4 [_ H]].
  apply bind_ok in H as [h [Hh H]]. injection H as <-. simpl.
  apply build_hierarchy_dom in Hh. simpl in Hh.
  assert (D : dom h = list_to_set (Corpus.output_types data)) by (rewrite Hh; set_solver).
  split; [reflexivity|]. split; [destruct (Corpus.is_timed data); reflexivity|].
  split; [exact D|]. split; [|reflexivity].
  intros x Hx. apply not_elem_of_dom. rewrite D. set_solver.
Qed.

Lemma add_discourse_frame_witness :
  exists c',
    Corpus.add_discourse unit no_store_effect no_store_effect no_store_effect
      no_store_effect sample_context sample_data = Ok c'
    /\ Corpus.relationship_types unit c'
       = Corpus.relationship_types unit sample_context
         ∪ list_to_set (Corpus.output_types sample_data)
    /\ Corpus.ctx_is_timed unit c' = Corpus.is_timed sample_data
    /\ dom (Corpus.hierarchy unit c') = list_to_set (Corpus.output_types sample_data)
    /\ (forall x, x ∉ Corpus.output_types sample_data ->
                  Corpus.hierarchy unit c' !! x = None)
    /\ Corpus.ctx_corpus_name unit c' = Corpus.ctx_corpus_name unit sample_context.
Proof.
  eexists. split; [vm_compute; reflexivity|].
  apply (add_discourse_frame unit no_store_effect no_store_effect no_store_effect
           no_store_effect sample_context _ sample_data).
  vm_compute. reflexivity.
Defined.

(** *** Splitting on a delimiter and joining again *)

Lemma is_prefix_app (d r : str) : is_prefix d (d ++ r) = true.
Proof.
  induction d as [|x d IH]; simpl; [reflexivity|].
  unfold ascii_eqb. rewrite Ascii.eqb_refl. exact IH.
Qed.

Lemma is_prefix_inv (d s : str) :
  is_prefix d s = true -> s = d ++ skipn (length d) s.
Proof.
  revert s; induction d as [|x d IH]; intros [|y s]; simpl; intros H;
    try discriminate; try reflexivity.
  apply andb_true_iff in H as [E H]. apply Ascii.eqb_eq in E. subst y.
  f_equal. now apply IH.
Qed.














Lemma filter_all {A} (f : A -> bool) (l : list A) :
  (forall x, In x l -> f x = true) -> List.filter f l = l.
Proof.
  induction l as [|x l IH]; intros H; [reflexivity|].
  simpl. rewrite (H x (or_introl eq_refl)). f_equal. apply IH.
  intros y Hy. apply H. now right.
Qed.

Lemma build_segments_none (segs : list str) :
  forall acc, build_segments None segs acc
              = Ok (acc ++ map BaseAnnotation_init (nonempties segs)).
Proof.
  induction segs as [|seg rest IH]; intros acc; simpl.
  - now rewrite app_nil_r.
  - destruct (is_empty seg); simpl; [apply IH|].
    rewrite IH, <- app_assoc. reflexivity.
Qed.

Lemma map_label_init (l : list str) : map label (map BaseAnnotation_init l) = l.
Proof. induction l as [|x l IH]; simpl; [reflexivity | now rewrite IH]. Qed.

Lemma parse_transcription_no_morphs (s : str) (t : AnnotationType) :
  morph_delimiters t = [] -> parse_transcription s t = tokenize s t.
Proof.
  intros H. unfold parse_transcription. change recursion_limit with (S 999).
  cbn [parse_transcription_rec]. rewrite H. reflexivity.
Qed.

(** ** What the tokenizer keeps true of every segment *)

Lemma update_last_Forall {A} (Q : A -> Prop) (f : A -> A) (l l' : list A) :
  (forall a, Q a -> Q (f a)) -> update_last f l = Ok l' -> Forall Q l -> Forall Q l'.
Proof.
  intros Hf. revert l'. induction l as [|x l IH]; intros l' H F; [discriminate|].
  inversion F as [|? ? Qx Fl]; subst. destruct l as [|y l].
  - simpl in H. injection H as <-. constructor; [now apply Hf | constructor].
  - cbn [update_last] in H. apply bind_ok in H as [r [Hr H]]. injection H as <-.
    constructor; [exact Qx | now apply IH].
Qed.

Lemma is_empty_false (x : str) : is_empty x = false <-> x <> [].
Proof. destruct x; simpl; split; congruence. Qed.

Section SegmentInvariant.

Variable Q : BaseAnnotation -> Prop.
Variable t : AnnotationType.

Hypothesis Q_plain :
  number_behavior t = None -> forall seg, seg <> [] -> Q (BaseAnnotation_init seg).

Hypothesis Q_numbered :
  forall p, number_behavior t = Some p ->
  forall seg, List.filter (fun x => negb (is_digit x)) seg <> [] ->
  Q (match digits_of seg with
     | Some _ => set_number p (digits_of seg)
                   (BaseAnnotation_init (List.filter (fun x => negb (is_digit x)) seg))
     | None => BaseAnnotation_init (List.filter (fun x => negb (is_digit x)) seg)
     end).

Hypothesis Q_attached :
  forall p, number_behavior t = Some p ->
  forall seg a, Q a -> Q (set_number p (digits_of seg) a).

Hypothesis Q_group : forall i a, Q a -> Q (set_group i a).

Lemma build_segments_Forall (segs : list str) :
  forall acc res,
  build_segments (number_behavior t) segs acc = Ok res -> Forall Q acc -> Forall Q res.
Proof.
  induction segs as [|seg rest IH]; intros acc res H F; simpl in H.
  - now injection H as <-.
  - destruct (is_empty seg) eqn:E; [now apply (IH acc)|].
    apply is_empty_false in E.
    destruct (number_behavior t) as [p|] eqn:Nb.
    + fold (digits_of seg) in H.
      destruct (is_empty (List.filter (fun x => negb (is_digit x)) seg)) eqn:E'.
      * apply bind_ok in H as [fs [Hfs H]]. apply (IH fs res H).
        apply (update_last_Forall Q _ acc fs (Q_attached p eq_refl seg) Hfs F).
      * apply is_empty_false in E'. apply (IH _ res H).
        apply List.Forall_app. split; [exact F|]. constructor; [|constructor].
        exact (Q_numbered p eq_refl seg E').
    + apply (IH _ res H). apply List.Forall_app. split; [exact F|].
      constructor; [|constructor]. exact (Q_plain eq_refl seg E).
Qed.

Lemma tokenize_Forall (s : str) (segs : list BaseAnnotation) :
  tokenize s t = Ok segs -> Forall Q segs.
Proof.
  unfold tokenize. intros H. apply bind_ok in H as [l [_ H]].
  apply (build_segments_Forall l [] segs H). constructor.
Qed.

Lemma morph_fold_Forall (depth : nat)
    (IH : forall s segs, parse_transcription_rec depth s t = Ok segs -> Forall Q segs)
    (ims : list (nat * str)) :
  forall (a0 : res (list BaseAnnotation)) (segs : list BaseAnnotation),
  fold_left
    (fun acc im =>
       transcription ← acc;
       trans ← parse_transcription_rec depth (snd im) t;
       Ok (transcription ++ map (set_group (fst im)) trans)) ims a0 = Ok segs ->
  exists acc, a0 = Ok acc /\ (Forall Q acc -> Forall Q segs).
Proof.
  induction ims as [|im ims IHl]; intros a0 segs H; simpl in H.
  - exists segs. auto.
  - destruct (IHl _ _ H) as [acc1 [E1 F1]].
    apply bind_ok in E1 as [acc [-> E1]]. apply bind_ok in E1 as [trans [Ht E1]].
    injection E1 as <-. exists acc. split; [reflexivity|]. intros F. apply F1.
    apply List.Forall_app. split; [exact F|].
    apply List.Forall_map. eapply List.Forall_impl; [|exact (IH _ _ Ht)].
    intros a Qa. now apply Q_group.
Qed.

(** A property that every new segment has, and that attaching digits and
    tagging a morph keep, holds of all the segments returned. *)
Lemma parse_transcription_rec_Forall (depth : nat) :
  forall s segs, parse_transcription_rec depth s t = Ok segs -> Forall Q segs.
Proof.
  induction depth as [|depth IH]; intros s segs H; [discriminate|].
  cbn [parse_transcription_rec] in H.
  destruct (negb (Nat.eqb (length (morph_delimiters t)) 0)
            && existsb (fun x => contains x s) (morph_delimiters t)).
  - destruct (forallb regex_literal (morph_delimiters t)); [|discriminate].
    destruct (morph_fold_Forall depth IH _ _ _ H) as [acc [E F]].
    injection E as <-. apply F. constructor.
  - now apply (tokenize_Forall s).
Qed.

End SegmentInvariant.



(** *** The loop over the morphs *)





(** *** The labels of the segments *)









(** *** Labels that cannot make a delimiter *)









(** *** The pieces of a split *)





(** *** Morpheme delimiters of one character *)
















(** *** The labels of a first pass *)








(** *** Tokenizing joined labels *)







(** *** Where the round trip fails *)


(** Without digit stripping too, a delimiter of two characters fails once
    morphs are split first, although the morpheme delimiter stays out of the
    way: the labels "a" and "b" of the morphs of "a-b", joined by "aa", give
    "aaab", which splits into one label "ab". *)
Lemma roundtrip_needs_safe_delimiter :
  morphs_safe (tier_config (Some []) [] (Some (s_ "aa")) [s_ "-"] None) (s_ "aa")
  /\ roundtrip_fails (tier_config (Some []) [] (Some (s_ "aa")) [s_ "-"] None)
       (s_ "aa") (s_ "a-b").
Proof.
  split.
  { right. split; [reflexivity|]. right.
    intros c [<-|[<-|[]]]; split; reflexivity. }
  exists [set_group 0 (BaseAnnotation_init (s_ "a"));
          set_group 1 (BaseAnnotation_init (s_ "b"))],
         [BaseAnnotation_init (s_ "ab")].
  split; [vm_compute; reflexivity|]. split; [vm_compute; reflexivity | reflexivity].
Qed.

(** A morpheme delimiter of two characters can arise from a label and the
    delimiter: with the morpheme delimiters "a," and "-" and the delimiter
    ",", the labels "a" and "b" of "a-b" give "a,b", whose first morph is
    empty. *)
Lemma roundtrip_needs_single_characters :
  delimiter_safe (tier_config (Some []) [] (Some (s_ ",")) [s_ "a,"; s_ "-"] None)
    (s_ ",")
  /\ roundtrip_fails (tier_config (Some []) [] (Some (s_ ",")) [s_ "a,"; s_ "-"] None)
       (s_ ",") (s_ "a-b").
Proof.
  split; [right; left; reflexivity|].
  exists [set_group 0 (BaseAnnotation_init (s_ "a"));
          set_group 1 (BaseAnnotation_init (s_ "b"))],
         [set_group 1 (BaseAnnotation_init (s_ "b"))].
  split; [vm_compute; reflexivity|]. split; [vm_compute; reflexivity | reflexivity].
Qed.

(** A delimiter that holds a morpheme delimiter and more is cut by the morph
    split: with the morpheme delimiter "-", the delimiter "1-x" and the
    stress policy, the labels "a" and "b" of "a-b" give "a1-xb", whose morphs
    are "a1" and "xb". *)
Lemma roundtrip_needs_disjoint_delimiter :
  delimiter_safe
    (tier_config (Some []) [] (Some (s_ "1-x")) [s_ "-"] (Some stress_policy))
    (s_ "1-x")
  /\ roundtrip_fails
       (tier_config (Some []) [] (Some (s_ "1-x")) [s_ "-"] (Some stress_policy))
       (s_ "1-x") (s_ "a-b").
Proof.
  split; [right; right; left; split; [discriminate | reflexivity]|].
  exists [set_group 0 (BaseAnnotation_init (s_ "a"));
          set_group 1 (BaseAnnotation_init (s_ "b"))],
         [set_group 0 (set_number stress_policy (Some (s_ "1"))
                         (BaseAnnotation_init (s_ "a")));
          set_group 1 (BaseAnnotation_init (s_ "xb"))].
  split; [vm_compute; reflexivity|]. split; [vm_compute; reflexivity | reflexivity].
Qed.

(** A delimiter that is an ignored character is removed from the joined
    labels: with the morpheme delimiter "-" and "." both delimiter and
    ignored, the labels "a" and "b" of "a-b" give "a.b", read as "ab". *)
Lemma roundtrip_needs_kept_delimiter :
  delimiter_safe (tier_config (Some ["."%char]) [] (Some (s_ ".")) [s_ "-"] None)
    (s_ ".")
  /\ roundtrip_fails (tier_config (Some ["."%char]) [] (Some (s_ ".")) [s_ "-"] None)
       (s_ ".") (s_ "a-b").
Proof.
  split; [right; left; reflexivity|].
  exists [set_group 0 (BaseAnnotation_init (s_ "a"));
          set_group 1 (BaseAnnotation_init (s_ "b"))],
         [BaseAnnotation_init (s_ "ab")].
  split; [vm_compute; reflexivity|]. split; [vm_compute; reflexivity | reflexivity].
Qed.


(** ** DiscourseData: process order *)

Lemma str_in_In (k : str) (l : list str) : str_in k l = true <-> In k l.
Proof.
  unfold str_in. rewrite existsb_exists. split.
  - intros [x [Hx E]]. apply str_eqb_eq in E. now subst.
  - intros H. exists k. split; [exact H | apply str_eqb_refl].
Qed.

Lemma str_in_not_In (k : str) (l : list str) : str_in k l = false <-> ~ In k l.
Proof.
  rewrite <- str_in_In. destruct (str_in k l); split; congruence.
Qed.

Lemma filter_length_split {A} (f : A -> bool) (l : list A) :
  length (List.filter f l) + length (List.filter (fun x => negb (f x)) l) = length l.
Proof.
  induction l as [|x l IH]; simpl; [reflexivity|].
  destruct (f x); simpl; lia.
Qed.

Lemma loop_bound (d : DiscourseData) :
  length (keys (data d)) - length (base_levels d) = length (nonbase_levels d).
Proof.
  unfold keys, base_levels, nonbase_levels. rewrite !List.length_map.
  pose proof (filter_length_split (fun kv : str * AnnotationType => base (snd kv)) (data d))
    as H.
  cbv beta in H. lia.
Qed.

Lemma NoDup_map_filter {A B} (g : A -> B) (f : A -> bool) (l : list A) :
  List.NoDup (map g l) -> List.NoDup (map g (List.filter f l)).
Proof.
  induction l as [|x l IH]; simpl; intros H; [exact H|].
  apply List.NoDup_cons_iff in H as [N H]. destruct (f x); simpl; [|now apply IH].
  apply List.NoDup_cons_iff. split; [|now apply IH].
  intros I. apply N. apply in_map_iff in I as [y [E I]].
  apply filter_In in I as [I _]. apply in_map_iff. eauto.
Qed.

Lemma forallb_false {A} (f : A -> bool) (l : list A) :
  forallb f l = false -> exists x, In x l /\ f x = false.
Proof.
  induction l as [|x l IH]; simpl; intros H; [discriminate|].
  destruct (f x) eqn:E.
  - destruct (IH H) as [y [I F]]. exists y. split; [now right | exact F].
  - exists x. split; [now left | exact E].
Qed.

Section ProcessOrder.

Variable d : DiscourseData.

Lemma place_spec (order : list str) (kv : str * AnnotationType) :
  place order kv = order
  \/ (place order kv = order ++ [fst kv] /\ ~ In (fst kv) order /\ base (snd kv) = false).
Proof.
  unfold place. destruct (str_in (fst kv) order) eqn:E; [now left|].
  apply str_in_not_In in E.
  destruct (base (snd kv)) eqn:B; [now left|].
  destruct (supertype (snd kv)) as [s|]; [|right; auto].
  destruct (str_in s order); [right; auto | now left].
Qed.

Lemma place_incl (order : list str) (kv : str * AnnotationType) :
  incl order (place order kv).
Proof.
  destruct (place_spec order kv) as [-> | [-> _]]; [apply incl_refl|].
  apply incl_appl, incl_refl.
Qed.

Lemma fold_place_incl (l : dict AnnotationType) :
  forall order, incl order (fold_left place l order).
Proof.
  induction l as [|kv l IH]; intros order; simpl; [apply incl_refl|].
  eapply incl_tran; [apply place_incl | apply IH].
Qed.

Lemma fold_place_ok (l : dict AnnotationType) :
  incl l (data d) ->
  forall order, List.NoDup order -> incl order (nonbase_levels d) ->
  List.NoDup (fold_left place l order)
  /\ incl (fold_left place l order) (nonbase_levels d).
Proof.
  induction l as [|kv l IH]; intros Hl order N I; simpl; [auto|].
  assert (Hkv : In kv (data d)) by (apply Hl; now left).
  assert (Hl' : incl l (data d)) by (intros x Hx; apply Hl; now right).
  destruct (place_spec order kv) as [-> | [-> [Hn Hb]]]; [now apply IH|].
  apply IH; [exact Hl'| |].
  - apply List.NoDup_app; [exact N | constructor; [intros []|constructor] |].
    intros x Hx [<-|[]]. exact (Hn Hx).
  - intros x Hx. apply in_app_or in Hx as [Hx|[<-|[]]]; [now apply I|].
    unfold nonbase_levels. apply in_map. apply filter_In.
    split; [exact Hkv | now rewrite Hb].
Qed.

Lemma pass_ok (order : list str) : order_ok d order -> order_ok d (pass d order).
Proof.
  intros [N [I W]]. unfold pass.
  destruct (fold_place_ok (data d) (incl_refl _) order N I) as [N' I'].
  split; [exact N'|]. split; [exact I'|].
  eapply incl_tran; [exact W | apply fold_place_incl].
Qed.

(** A tier that may be placed is in the order after the pass. *)
Lemma fold_place_places (l : dict AnnotationType) (k : str) (v : AnnotationType) :
  In (k, v) l -> base v = false ->
  forall order,
  (supertype v = None \/ exists s, supertype v = Some s /\ In s order) ->
  In k (fold_left place l order).
Proof.
  induction l as [|kv l IH]; intros Hin Hb order Hs; [destruct Hin|].
  simpl. destruct Hin as [->|Hin].
  - apply fold_place_incl. unfold place. simpl.
    destruct (str_in k order) eqn:E; [now apply str_in_In|].
    rewrite Hb. destruct Hs as [->|[s [-> Hs]]].
    + apply in_or_app. right. now left.
    + apply str_in_In in Hs. rewrite Hs. apply in_or_app. right. now left.
  - apply IH; [exact Hin | exact Hb|].
    destruct Hs as [Hs|[s [Es Hs]]]; [now left|].
    right. exists s. split; [exact Es | now apply place_incl].
Qed.

(** Below a grounded tier that is not placed yet, some tier may be placed. *)
Lemma grounded_eligible (order : list str) (k : str) :
  incl (word_levels d) order -> grounded d k -> ~ In k order ->
  exists k' v', In (k', v') (data d) /\ ~ In k' order /\ base v' = false
                /\ (supertype v' = None \/ exists s, supertype v' = Some s /\ In s order).
Proof.
  intros W G. induction G as [k v Hin Ha | k v Hin Hb Hs | k s v Hin Hb Hs G IH];
    intros Hn.
  - exfalso. apply Hn, W. unfold word_levels.
    apply (in_map fst) with (x := (k, v)). apply filter_In. split; [exact Hin | exact Ha].
  - exists k, v. auto.
  - destruct (str_in s order) eqn:E.
    + apply str_in_In in E. exists k, v. repeat split; auto. right. eauto.
    + apply str_in_not_In in E. exact (IH E).
Qed.

Hypothesis keys_distinct : List.NoDup (keys (data d)).

Hypothesis all_grounded :
  forall k v, In (k, v) (data d) -> base v = false -> grounded d k.

(** While a tier remains to place, a pass places at least one. *)
Lemma pass_progress (order : list str) :
  order_ok d order -> length order < length (nonbase_levels d) ->
  length order < length (pass d order).
Proof.
  intros [N [I W]] L.
  destruct (forallb (fun k => str_in k order) (nonbase_levels d)) eqn:F.
  - exfalso. assert (H : incl (nonbase_levels d) order).
    { intros k Hk. apply str_in_In. rewrite forallb_forall in F. now apply F. }
    assert (Nb : List.NoDup (nonbase_levels d)) by (apply NoDup_map_filter, keys_distinct).
    pose proof (List.NoDup_incl_length Nb H). lia.
  - apply forallb_false in F as [k [Hk Fk]]. apply str_in_not_In in Fk.
    unfold nonbase_levels in Hk. apply in_map_iff in Hk as [[k0 v0] [E Hk]].
    simpl in E. subst k0. apply filter_In in Hk as [Hin Hb]. simpl in Hb.
    apply negb_true_iff in Hb.
    destruct (grounded_eligible order k W (all_grounded k v0 Hin Hb) Fk)
      as [k' [v' [Hin' [Hn' [Hb' Hs']]]]].
    pose proof (fold_place_places (data d) k' v' Hin' Hb' order Hs') as P.
    fold (pass d order) in P.
    destruct (pass_ok order (conj N (conj I W))) as [N' _].
    assert (Hc : List.NoDup (k' :: order)) by (constructor; assumption).
    assert (Hi : incl (k' :: order) (pass d order)).
    { intros x [<-|Hx]; [exact P | now apply (fold_place_incl (data d) order)]. }
    pose proof (List.NoDup_incl_length Hc Hi) as Len. simpl in Len. lia.
Qed.

End ProcessOrder.

Lemma process_order_loop_unfold (fuel : nat) (d : DiscourseData) (order : list str) :
  process_order_loop fuel d order
  = if length order <? length (nonbase_levels d) then
      match fuel with
      | 0 => None
      | S fuel' => process_order_loop fuel' d (pass d order)
      end
    else Some (Ok order).
Proof. rewrite <- loop_bound. destruct fuel; reflexivity. Qed.

(** With distinct keys and every tier that is not base grounded, the loop
    exits after at most as many passes as tiers remain to place. *)
Lemma process_order_loop_exits (d : DiscourseData) :
  List.NoDup (keys (data d)) ->
  (forall k v, In (k, v) (data d) -> base v = false -> grounded d k) ->
  forall n order,
  order_ok d order -> length (nonbase_levels d) - length order <= n ->
  exists order',
    (forall fuel, n <= fuel -> process_order_loop fuel d order = Some (Ok order'))
    /\ order_ok d order' /\ length (nonbase_levels d) <= length order'.
Proof.
  intros Hk Hg. induction n as [|n IH]; intros order Hok Hn.
  - exists order. split; [|split; [exact Hok | lia]].
    intros fuel _. rewrite process_order_loop_unfold.
    destruct (Nat.ltb_spec (length order) (length (nonbase_levels d))); [lia | reflexivity].
  - destruct (Nat.ltb_spec (length order) (length (nonbase_levels d))) as [L|L].
    + pose proof (pass_progress d Hk Hg order Hok L) as P.
      destruct (IH (pass d order) (pass_ok d order Hok)) as [order' [F [Hok' L']]]; [lia|].
      exists order'. split; [|split; assumption].
      intros [|fuel] Hf; [lia|]. rewrite process_order_loop_unfold.
      destruct (Nat.ltb_spec (length order) (length (nonbase_levels d))); [|lia].
      apply F. lia.
    + exists order. split; [|split; [exact Hok | lia]].
      intros fuel _. rewrite process_order_loop_unfold.
      destruct (Nat.ltb_spec (length order) (length (nonbase_levels d))); [lia | reflexivity].
Qed.

Lemma word_levels_ok (d : DiscourseData) :
  List.NoDup (keys (data d)) ->
  (forall k v, In (k, v) (data d) -> is_word_anchor v = true -> base v = false) ->
  order_ok d (word_levels d).
Proof.
  intros Hk Ha. split; [apply NoDup_map_filter, Hk|]. split; [|apply incl_refl].
  intros k Hin. unfold word_levels in Hin. apply in_map_iff in Hin as [[k0 v] [E Hin]].
  simpl in E. subst k0. apply filter_In in Hin as [Hin Hw]. simpl in Hw.
  unfold nonbase_levels. apply (in_map fst) with (x := (k, v)). apply filter_In.
  split; [exact Hin|]. simpl. now rewrite (Ha k v Hin Hw).
Qed.

(** C3 (as the claim states it, refuted): on two tiers that are each other's
    supertype no pass places a tier, so the loop never exits: whatever the
    number of passes allowed, [process_order] has neither returned nor
    raised. *)
Lemma process_order_two_cycle :
  (forall fuel, process_order fuel two_cycle = None)
  /\ ~ (exists fuel e, process_order fuel two_cycle = Some (Raise e)).
Proof.
  assert (H : forall fuel, process_order fuel two_cycle = None).
  { intros fuel. unfold process_order.
    change (word_levels two_cycle) with (@nil str).
    induction fuel as [|fuel IH]; [reflexivity|].
    rewrite process_order_loop_unfold.
    change (pass two_cycle []) with (@nil str).
    change (length [] <? length (nonbase_levels two_cycle)) with true.
    cbv iota. exact IH. }
  split; [exact H|]. intros [fuel [e E]]. rewrite H in E. discriminate.
Qed.

(** Two discourses without a cycle on which the order misses a tier: when
    the supertype of a tier is a base tier the loop never exits, and when a
    word-anchor tier is base the loop exits before the other tiers are
    placed. *)
Lemma process_order_needs_grounding :
  (forall fuel, process_order fuel through_base = None)
  /\ (forall fuel, process_order fuel base_anchor = Some (Ok [s_ "word"])).
Proof.
  split; intros fuel; unfold process_order.
  - change (word_levels through_base) with [s_ "word"].
    induction fuel as [|fuel IH]; [reflexivity|].
    rewrite process_order_loop_unfold.
    change (pass through_base [s_ "word"]) with [s_ "word"].
    change (length [s_ "word"] <? length (nonbase_levels through_base)) with true.
    cbv iota. exact IH.
  - change (word_levels base_anchor) with [s_ "word"].
    rewrite process_order_loop_unfold. reflexivity.
Qed.

(** C3 (amended): when no word-anchor tier is base and every tier that is
    not base is grounded - its chain of supertypes ends at a word-anchor tier
    or at a tier without supertype and passes through no base tier -
    [process_order] returns within as many passes as the discourse has tiers,
    and the order it returns holds the name of every tier that is not base
    exactly once, and no other name.  (The keys of a dict are distinct.) *)
Theorem process_order_places_all (d : DiscourseData) :
  List.NoDup (keys (data d)) ->
  (forall k v, In (k, v) (data d) -> is_word_anchor v = true -> base v = false) ->
  (forall k v, In (k, v) (data d) -> base v = false -> grounded d k) ->
  exists order,
    (forall fuel, length (data d) <= fuel -> process_order fuel d = Some (Ok order))
    /\ List.NoDup order
    /\ (forall k, In k order <-> exists v, In (k, v) (data d) /\ base v = false).
Proof.
  intros Hk Ha Hg.
  destruct (process_order_loop_exits d Hk Hg (length (data d)) (word_levels d)
              (word_levels_ok d Hk Ha)) as [order [F [[N [I W]] L]]].
  { unfold nonbase_levels. rewrite List.length_map.
    pose proof (List.filter_length_le (fun kv : str * AnnotationType => negb (base (snd kv)))
                  (data d)). lia. }
  exists order. split; [exact F|]. split; [exact N|].
  assert (I' : incl (nonbase_levels d) order)
    by (apply (List.NoDup_length_incl N L I)).
  intros k. split.
  - intros Hin. apply I in Hin. unfold nonbase_levels in Hin.
    apply in_map_iff in Hin as [[k0 v] [E Hin]]. simpl in E. subst k0.
    apply filter_In in Hin as [Hin Hb]. simpl in Hb. apply negb_true_iff in Hb. eauto.
  - intros [v [Hin Hb]]. apply I'. unfold nonbase_levels.
    apply (in_map fst) with (x := (k, v)). apply filter_In.
    split; [exact Hin | simpl; now rewrite Hb].
Qed.

(** The tiers of [three_levels], by name. *)
Lemma three_levels_data (k : str) (v : AnnotationType) :
  In (k, v) (data three_levels) ->
  (k = s_ "morpheme" /\ base v = false /\ is_word_anchor v = false
   /\ supertype v = Some (s_ "syllable"))
  \/ (k = s_ "syllable" /\ base v = false /\ is_word_anchor v = false
      /\ supertype v = Some (s_ "word"))
  \/ (k = s_ "word" /\ base v = false /\ is_word_anchor v = true)
  \/ (k = s_ "phone" /\ base v = true /\ is_word_anchor v = false).
Proof.
  intros H. vm_compute in H.
  destruct H as [H|[H|[H|[H|[]]]]]; injection H as <- <-.
  - left. repeat split.
  - right. left. repeat split.
  - right. right. left. repeat split.
  - right. right. right. repeat split.
Qed.

Lemma three_levels_in (k : str) :
  In k [s_ "morpheme"; s_ "syllable"; s_ "word"; s_ "phone"] ->
  exists v, In (k, v) (data three_levels).
Proof.
  intros [<-|[<-|[<-|[<-|[]]]]]; eexists; vm_compute; tauto.
Qed.

Lemma three_levels_grounded (k : str) (v : AnnotationType) :
  In (k, v) (data three_levels) -> base v = false -> grounded three_levels k.
Proof.
  assert (W : grounded three_levels (s_ "word")).
  { destruct (three_levels_in (s_ "word")) as [w Hw]; [simpl; tauto|].
    destruct (three_levels_data _ _ Hw) as [[E _]|[[E _]|[[_ [_ A]]|[E _]]]];
      try discriminate E.
    exact (grounded_anchor _ _ _ Hw A). }
  assert (S : grounded three_levels (s_ "syllable")).
  { destruct (three_levels_in (s_ "syllable")) as [w Hw]; [simpl; tauto|].
    destruct (three_levels_data _ _ Hw) as [[E _]|[[_ [B [_ P]]]|[[E _]|[E _]]]];
      try discriminate E.
    exact (grounded_step _ _ _ _ Hw B P W). }
  intros H B.
  destruct (three_levels_data _ _ H) as [[-> [_ [_ P]]]|[[-> _]|[[-> _]|[_ [B' _]]]]].
  - exact (grounded_step _ _ _ _ H B P S).
  - exact S.
  - exact W.
  - congruence.
Qed.

Lemma process_order_places_all_witness :
  exists order,
    (forall fuel, length (data three_levels) <= fuel ->
                  process_order fuel three_levels = Some (Ok order))
    /\ List.NoDup order
    /\ (forall k, In k order <-> exists v, In (k, v) (data three_levels) /\ base v = false).
Proof.
  apply (process_order_places_all three_levels).
  - vm_compute. repeat constructor; simpl; intuition discriminate.
  - intros k v H A.
    destruct (three_levels_data _ _ H) as [[_ [B _]]|[[_ [B _]]|[[_ [B _]]|[_ [_ A']]]]];
      congruence.
  - exact three_levels_grounded.
Defined.

(** The order on [three_levels]: the morphemes are listed first but wait for
    the syllables, which a first pass places; a second pass places them. *)
Example process_order_three_levels :
  process_order 4 three_levels
  = Some (Ok [s_ "word"; s_ "syllable"; s_ "morpheme"]).
Proof. vm_compute. reflexivity. Qed.

(** ** Dicts and lists *)

Lemma dict_get_set_eq {V} (k : str) (v : V) (d : dict V) :
  dict_get k (dict_set k v d) = Some v.
Proof.
  induction d as [|[k' v'] d IH]; simpl.
  - now rewrite str_eqb_refl.
  - destruct (str_eqb k k') eqn:E; simpl; rewrite E; [reflexivity | exact IH].
Qed.

Lemma dict_get_set_ne {V} (k k' : str) (v : V) (d : dict V) :
  k <> k' -> dict_get k (dict_set k' v d) = dict_get k d.
Proof.
  intros N. apply str_eqb_neq in N.
  induction d as [|[k2 v2] d IH]; simpl.
  - now rewrite N.
  - destruct (str_eqb k' k2) eqn:E; simpl.
    + apply str_eqb_eq in E. subst k2. now rewrite N.
    + destruct (str_eqb k k2); [reflexivity | exact IH].
Qed.


Lemma dict_item_ok {V} (k : str) (d : dict V) (v : V) :
  dict_item k d = Ok v -> dict_get k d = Some v.
Proof. unfold dict_item. destruct (dict_get k d); intros H; congruence. Qed.

Lemma list_item_ok {A} (l : list A) (j : nat) (x : A) :
  list_item l j = Ok x -> nth_error l j = Some x.
Proof. unfold list_item. destruct (nth_error l j); intros H; congruence. Qed.

(** ** Projection of the word tiers *)

(** C5: [data_to_discourse] creates no word token.  Its second statement
    calls [Discourse], a name that [helper.py] neither imports nor defines
    (nor [WordToken], which the loop over the annotations calls): on every
    DiscourseData and every lexicon the call raises [NameError] before any
    position is assigned. *)
Theorem data_to_discourse_unbound_Discourse (Lexicon Word : Type)
    (empty_lexicon : Lexicon)
    (lex_has_attribute : Lexicon -> Attribute -> bool)
    (lex_add_attribute : Lexicon -> Attribute -> Lexicon)
    (get_or_create_word : Lexicon -> dict (Attribute * propval) -> Lexicon * Word)
    (record_token : Lexicon -> Word -> Lexicon)
    (dd : DiscourseData) (lexicon : option Lexicon) :
  data_to_discourse Lexicon Word empty_lexicon lex_has_attribute lex_add_attribute
    get_or_create_word record_token dd lexicon = Raise (NameError "Discourse").
Proof. unfold data_to_discourse. reflexivity. Qed.

(** The loop over the annotations of a word tier cannot create a token
    either: when everything before it returns, the call of [WordToken]
    raises. *)
Lemma word_token_unbound_WordToken (Lexicon Word : Type)
    (get_or_create_word : Lexicon -> dict (Attribute * propval) -> Lexicon * Word)
    (record_token : Lexicon -> Word -> Lexicon)
    (dd : DiscourseData) (am : dict Attribute) (lexicon : Lexicon) (level : str)
    (s : item) (ind : nat) :
  exists e, word_token Lexicon Word get_or_create_word record_token dd am lexicon
              level s ind = Raise e.
Proof.
  unfold word_token. destruct s as [b|s|x]; [eauto| |eauto].
  destruct (dict_item level am) as [la|e]; [|eauto]. cbn [mbind res_bind].
  destruct (token_properties Word am (ann_token s) _) as [kw1|e]; [|eauto].
  cbn [mbind res_bind].
  destruct (additional_properties Word dd am (additional s) kw1) as [kw2|e]; [|eauto].
  cbn [mbind res_bind].
  destruct (resolve_references Word dd am s _ kw2) as [kw3|e]; [|eauto].
  cbn [mbind res_bind]. eauto.
Qed.

(** * Further properties *)

(** ** The search pass and the tokenizer without delimiter *)

Lemma take_digits_prefix (s : str) : is_prefix (take_digits s) s = true.
Proof.
  induction s as [|c r IH]; simpl; [reflexivity|].
  destruct (is_digit c); simpl; [|reflexivity].
  unfold ascii_eqb. rewrite Ascii.eqb_refl. exact IH.
Qed.

Lemma match_atom_prefix (a : atom) (s t : str) :
  match_atom a s = Some t -> is_prefix t s = true.
Proof.
  destruct a as [d| |]; simpl.
  - destruct (is_prefix d s) eqn:E; intros H; [|discriminate]. now injection H as <-.
  - pose proof (take_digits_prefix s) as P.
    destruct (take_digits s); intros H; [discriminate|]. now injection H as <-.
  - destruct s as [|c r]; [discriminate|].
    destruct (is_space c); intros H; [discriminate|]. injection H as <-.
    simpl. unfold ascii_eqb. now rewrite Ascii.eqb_refl.
Qed.

Lemma first_match_spec (b : bool) (alts : list atom) (s t : str) :
  first_match b alts s = Some t ->
  is_prefix t s = true /\ (b = false -> t <> [])
  /\ exists a, In a alts /\ match_atom a s = Some t.
Proof.
  induction alts as [|a alts IH]; simpl; [discriminate|].
  destruct (match_atom a s) as [u|] eqn:E.
  - destruct (b || negb (is_empty u)) eqn:F.
    + intros H. injection H as <-. split; [now apply (match_atom_prefix a)|].
      split; [|exists a; auto]. intros ->. simpl in F. destruct u; [discriminate|congruence].
    + intros H. destruct (IH H) as [P [N [a' [I M]]]]. eauto 6.
  - intros H. destruct (IH H) as [P [N [a' [I M]]]]. eauto 6.
Qed.

(** The events of a pass, read in order, give the text back. *)
Lemma scan_flatten (alts : list atom) (s : str) :
  forall k, k <= length s -> flatten_events (scan alts k s) = skipn k s.
Proof.
  unfold flatten_events.
  induction s as [|c r IH]; intros k Hk.
  - simpl in Hk. replace k with 0 by lia. simpl.
    destruct (first_match true alts []) as [t|] eqn:E; [|reflexivity].
    apply first_match_spec in E as [P _]. destruct t; [reflexivity | discriminate P].
  - destruct k as [|k]; [|simpl; apply IH; simpl in Hk; lia].
    assert (Hit1 : forall b t, first_match b alts (c :: r) = Some t -> t <> [] ->
                   t ++ flat_map (fun e => match e with Hit t => t | Gap c => [c] end)
                          (scan alts (length t - 1) r) = c :: r).
    { intros b t E N. apply first_match_spec in E as [P _].
      pose proof (is_prefix_length _ _ P) as L.
      rewrite IH by (destruct t; [congruence | simpl in *; lia]).
      rewrite (is_prefix_inv _ _ P) at 1. f_equal.
      destruct t; [congruence|]. simpl. now rewrite Nat.sub_0_r. }
    simpl. destruct (first_match true alts (c :: r)) as [t|] eqn:E.
    + destruct t as [|x t'].
      * simpl. destruct (first_match false alts (c :: r)) as [u|] eqn:E2.
        -- pose proof E2 as E3. apply first_match_spec in E3 as [_ [N _]].
           simpl. apply (Hit1 false u E2). now apply N.
        -- simpl. f_equal. apply (IH 0). lia.
      * simpl flat_map. apply (Hit1 true (x :: t') E). discriminate.
    + simpl. f_equal. apply (IH 0). lia.
Qed.

Lemma is_digit_not_space (c : ascii) : is_digit c = true -> is_space c = false.
Proof.
  unfold is_digit, is_space, in_range. intros H.
  apply andb_true_iff in H as [H1 H2]. apply Nat.leb_le in H1, H2.
  repeat rewrite orb_false_iff. repeat split.
  - apply andb_false_iff. right. apply Nat.leb_gt. lia.
  - apply andb_false_iff. right. apply Nat.leb_gt. lia.
  - apply Nat.eqb_neq. lia.
  - apply Nat.eqb_neq. lia.
Qed.

Lemma take_digits_no_space (s : str) : no_space (take_digits s) = true.
Proof.
  unfold no_space. induction s as [|c r IH]; simpl; [reflexivity|].
  destruct (is_digit c) eqn:E; simpl; [|reflexivity].
  now rewrite (is_digit_not_space c E).
Qed.

Section DigraphPattern.

Variable ds : list str.

Hypothesis ds_no_space : forall d, In d ds -> no_space d = true.

Lemma compiled_match_no_space (b : bool) (s t : str) :
  first_match b (compile_digraphs ds) s = Some t -> no_space t = true.
Proof.
  intros H. apply first_match_spec in H as [_ [_ [a [I M]]]].
  unfold compile_digraphs in I. apply in_app_or in I as [I|[<-|[<-|[]]]].
  - apply in_map_iff in I as [d [<- I]]. apply (proj1 (sort_by_len_desc_In ds d)) in I.
    simpl in M. destruct (is_prefix d s); [|discriminate]. injection M as <-.
    apply ds_no_space. exact I.
  - simpl in M. pose proof (take_digits_no_space s) as P.
    destruct (take_digits s); [discriminate|]. now injection M as <-.
  - simpl in M. destruct s as [|c r]; [discriminate|].
    destruct (is_space c) eqn:E; [discriminate|]. injection M as <-.
    unfold no_space. simpl. now rewrite E.
Qed.

Lemma non_space_matches (b : bool) (alts : list atom) (c : ascii) (r : str) :
  In NonSpace alts -> is_space c = false -> first_match b alts (c :: r) <> None.
Proof.
  intros I E. induction alts as [|a alts IH]; [destruct I|].
  simpl. destruct I as [->|I].
  - simpl. rewrite E. simpl. rewrite orb_true_r. discriminate.
  - destruct (match_atom a (c :: r)) as [u|]; [|now apply IH].
    destruct (b || negb (is_empty u)); [discriminate | now apply IH].
Qed.

Lemma compiled_gap_space (b : bool) (c : ascii) (r : str) :
  first_match b (compile_digraphs ds) (c :: r) = None -> is_space c = true.
Proof.
  intros H. destruct (is_space c) eqn:E; [reflexivity|]. exfalso.
  apply (non_space_matches b (compile_digraphs ds) c r); [|exact E | exact H].
  unfold compile_digraphs. apply in_or_app. right. simpl. auto.
Qed.

(** In a pass of the compiled pattern the matches hold no white space and
    the characters between them are white space. *)
Lemma compiled_scan_events (s : str) :
  forall k,
  Forall (fun e => match e with
                   | Hit t => no_space t = true
                   | Gap c => is_space c = true
                   end) (scan (compile_digraphs ds) k s).
Proof.
  induction s as [|c r IH]; intros k.
  - simpl. destruct k; [|constructor].
    destruct (first_match true (compile_digraphs ds) []) as [t|] eqn:E; constructor;
      [now apply (compiled_match_no_space true [] t) | constructor].
  - destruct k as [|k]; [|simpl; apply IH]. simpl.
    destruct (first_match true (compile_digraphs ds) (c :: r)) as [t|] eqn:E.
    + pose proof (compiled_match_no_space _ _ _ E) as Nt. destruct t as [|x t'].
      * constructor; [reflexivity|].
        destruct (first_match false (compile_digraphs ds) (c :: r)) as [u|] eqn:E2.
        -- constructor; [now apply (compiled_match_no_space false (c :: r) u) | apply IH].
        -- constructor; [now apply (compiled_gap_space false c r) | apply IH].
      * constructor; [exact Nt | apply IH].
    + constructor; [now apply (compiled_gap_space true c r) | apply IH].
Qed.

Lemma events_filter (evs : list event) :
  Forall (fun e => match e with
                   | Hit t => no_space t = true
                   | Gap c => is_space c = true
                   end) evs ->
  List.filter (fun c => negb (is_space c)) (flatten_events evs)
  = concat (flat_map (fun e => match e with Hit t => [t] | Gap _ => [] end) evs).
Proof.
  unfold flatten_events. induction 1 as [|e evs He H IH]; [reflexivity|].
  simpl. rewrite List.filter_app, IH. destruct e as [t|c].
  - simpl. f_equal. apply filter_all. intros x Hx.
    unfold no_space in He. rewrite forallb_forall in He. now apply He.
  - simpl. now rewrite He.
Qed.

(** What [findall] returns, put end to end, is the text without its white
    space. *)
Lemma findall_concat (s : str) :
  concat (findall (compile_digraphs ds) s) = List.filter (fun c => negb (is_space c)) s.
Proof.
  unfold findall. rewrite <- (events_filter _ (compiled_scan_events s 0)).
  rewrite (scan_flatten (compile_digraphs ds) s 0) by lia. reflexivity.
Qed.

End DigraphPattern.

Lemma concat_nonempties (l : list str) : concat (nonempties l) = concat l.
Proof.
  induction l as [|x l IH]; [reflexivity|].
  destruct x as [|c x]; simpl; [exact IH|]. now rewrite <- IH.
Qed.

(** X1: a tier without transcription delimiter, morpheme delimiter and
    numeric-suffix policy, whose digraphs hold no white space, is tokenized
    without loss: [parse_transcription] returns, no label is empty, and the
    labels put end to end are the string without its ignored characters and
    its white space. *)
Theorem parse_transcription_keeps_text (t : AnnotationType) (s : str) :
  trans_delimiter t = None -> morph_delimiters t = [] -> number_behavior t = None ->
  (forall d, In d (digraphs t) -> no_space d = true) ->
  exists segs,
    parse_transcription s t = Ok segs
    /\ Forall (fun a => label a <> []) segs
    /\ concat (map label segs)
       = List.filter (fun c => negb (is_space c)) (strip_ignored t s).
Proof.
  intros Hd Hm Hn Hs. rewrite (parse_transcription_no_morphs s t Hm).
  unfold tokenize. rewrite Hd, Hn. fold (strip_ignored t s).
  assert (E : match digraph_pattern t with
              | Some pat => Ok (findall pat (strip_ignored t s))
              | None => Ok (findall parse_numbers (strip_ignored t s))
              end = (Ok (findall (compile_digraphs (digraphs t)) (strip_ignored t s))
                     : res (list str))).
  { unfold digraph_pattern. destruct (digraphs t); reflexivity. }
  rewrite E. cbn [mbind res_bind]. rewrite build_segments_none.
  eexists. split; [reflexivity|]. split.
  - apply List.Forall_map. unfold nonempties. apply List.Forall_forall. intros x Hx.
    apply filter_In in Hx as [_ Hx]. simpl. destruct x; [discriminate Hx | discriminate].
  - simpl app. rewrite map_label_init, concat_nonempties.
    apply findall_concat. exact Hs.
Qed.

Lemma parse_transcription_keeps_text_witness :
  exists segs,
    parse_transcription (s_ "ts a 12")
      (tier_config (Some ["-"%char]) [s_ "ts"] None [] None) = Ok segs
    /\ Forall (fun a => label a <> []) segs
    /\ concat (map label segs)
       = List.filter (fun c => negb (is_space c))
           (strip_ignored (tier_config (Some ["-"%char]) [s_ "ts"] None [] None)
              (s_ "ts a 12")).
Proof.
  apply (parse_transcription_keeps_text
           (tier_config (Some ["-"%char]) [s_ "ts"] None [] None) (s_ "ts a 12"));
    try reflexivity.
  intros d [<-|[]]. reflexivity.
Defined.
(** ** Labels, digits and morph indices of the segments *)

(** X2: on a tier whose morpheme delimiters hold no character that a
    pattern reads as an operator (the delimiters are joined into a pattern
    without escaping), whatever the rest of its configuration, no segment
    that [parse_transcription] returns has an empty label. *)
Theorem parse_transcription_no_empty_label (t : AnnotationType) (s : str)
    (segs : list BaseAnnotation) :
  forallb regex_literal (morph_delimiters t) = true ->
  parse_transcription s t = Ok segs -> Forall (fun a => label a <> []) segs.
Proof.
  intros _.
  apply (parse_transcription_rec_Forall (fun a => label a <> []) t).
  - intros _ seg N. exact N.
  - intros p _ seg N. destruct (digits_of seg); [destruct p|]; exact N.
  - intros p _ seg a N. destruct p; exact N.
  - intros i a N. exact N.
Qed.

Lemma parse_transcription_no_empty_label_witness :
  exists segs,
    parse_transcription (s_ "k.ae1..t-s2")
      (tier_config (Some []) [] (Some (s_ ".")) [s_ "-"] (Some stress_policy)) = Ok segs
    /\ Forall (fun a => label a <> []) segs.
Proof.
  eexists. split; [vm_compute; reflexivity|].
  apply (parse_transcription_no_empty_label
           (tier_config (Some []) [] (Some (s_ ".")) [s_ "-"] (Some stress_policy))
           (s_ "k.ae1..t-s2")); [reflexivity|].
  vm_compute. reflexivity.
Defined.

(** X3: on a tier with a numeric-suffix policy whose morpheme delimiters
    hold no character that a pattern reads as an operator, no label that
    [parse_transcription] returns holds a digit, and the stress (or tone) of
    a segment, when it has one, is a non-empty string of digits. *)
Theorem parse_transcription_strips_digits (t : AnnotationType) (p : number_policy)
    (s : str) (segs : list BaseAnnotation) :
  forallb regex_literal (morph_delimiters t) = true ->
  number_behavior t = Some p ->
  parse_transcription s t = Ok segs ->
  Forall (fun a =>
            (forall c, In c (label a) -> is_digit c = false)
            /\ (forall n, number_of p a = Some n ->
                          n <> [] /\ forall c, In c n -> is_digit c = true)) segs.
Proof.
  intros _ Nb.
  assert (D : forall seg n, digits_of seg = Some n ->
              n <> [] /\ forall c, In c n -> is_digit c = true).
  { unfold digits_of. intros seg n H.
    destruct (is_empty (List.filter is_digit seg)) eqn:E; [discriminate|].
    injection H as <-. split; [now apply is_empty_false|].
    intros c Hc. now apply filter_In in Hc. }
  assert (L : forall seg c, In c (List.filter (fun x => negb (is_digit x)) seg) ->
              is_digit c = false).
  { intros seg c Hc. apply filter_In in Hc as [_ Hc]. now apply negb_true_iff. }
  apply (parse_transcription_rec_Forall _ t).
  - intros E. congruence.
  - intros p' E seg _. assert (p' = p) by congruence. subst p'.
    destruct (digits_of seg) as [n|] eqn:Dn.
    + split; [destruct p; exact (L seg)|].
      intros m Hm. apply (D seg). destruct p; simpl in Hm; congruence.
    + split; [exact (L seg)|]. intros m Hm. destruct p; discriminate Hm.
  - intros p' E seg a [La Na]. assert (p' = p) by congruence. subst p'.
    split; [destruct p; exact La|].
    intros m Hm. apply (D seg). destruct p; simpl in Hm; congruence.
  - intros i a [La Na]. split; [exact La | destruct p; exact Na].
Qed.

Lemma parse_transcription_strips_digits_witness :
  exists segs,
    parse_transcription (s_ "k.ae1.t.2")
      (tier_config (Some []) [] (Some (s_ ".")) [] (Some stress_policy)) = Ok segs
    /\ Forall (fun a =>
                 (forall c, In c (label a) -> is_digit c = false)
                 /\ (forall n, number_of stress_policy a = Some n ->
                               n <> [] /\ forall c, In c n -> is_digit c = true)) segs.
Proof.
  eexists. split; [vm_compute; reflexivity|].
  apply (parse_transcription_strips_digits
           (tier_config (Some []) [] (Some (s_ ".")) [] (Some stress_policy))
           stress_policy (s_ "k.ae1.t.2")); [reflexivity | reflexivity|].
  vm_compute. reflexivity.
Defined.





(** ** DiscourseData *)

Lemma place_step (d : DiscourseData) (W order : list str) (kv : str * AnnotationType) :
  In kv (data d) -> ordered_from d W order -> ordered_from d W (place order kv).
Proof.
  intros Hin Ho. unfold place. destruct kv as [k v]. simpl.
  destruct (str_in k order) eqn:E; [exact Ho|]. apply str_in_not_In in E.
  destruct (base v) eqn:B; [exact Ho|].
  destruct (supertype v) as [s|] eqn:S.
  - destruct (str_in s order) eqn:Es; [|exact Ho]. apply str_in_In in Es.
    apply (ordered_snoc d W order k v); auto. right. eauto.
  - apply (ordered_snoc d W order k v); auto.
Qed.

Lemma fold_place_ordered (d : DiscourseData) (W : list str) (l : dict AnnotationType) :
  incl l (data d) ->
  forall order, ordered_from d W order -> ordered_from d W (fold_left place l order).
Proof.
  induction l as [|kv l IH]; intros Hl order Ho; [exact Ho|].
  simpl. apply IH; [intros x Hx; apply Hl; now right|].
  apply place_step; [apply Hl; now left | exact Ho].
Qed.

Lemma process_order_loop_ordered (d : DiscourseData) (W : list str) (fuel : nat) :
  forall order result,
  ordered_from d W order ->
  process_order_loop fuel d order = Some (Ok result) -> ordered_from d W result.
Proof.
  induction fuel as [|fuel IH]; intros order result Ho H;
    rewrite process_order_loop_unfold in H;
    destruct (length order <? length (nonbase_levels d)); try discriminate.
  - injection H as <-. exact Ho.
  - apply (IH (pass d order) result); [|exact H].
    apply fold_place_ordered; [apply incl_refl | exact Ho].
  - injection H as <-. exact Ho.
Qed.

Lemma ordered_from_prefix (d : DiscourseData) (W order : list str) :
  ordered_from d W order -> exists rest, order = W ++ rest.
Proof.
  induction 1 as [|order k v Ho [rest ->] Hin Hb Hn Hs].
  - exists []. now rewrite app_nil_r.
  - exists (rest ++ [k]). now rewrite app_assoc.
Qed.

(** X5: whenever [process_order] returns, the order starts with the word
    levels and goes on with tiers placed one at a time, each a tier of the
    discourse that is not base, placed once, and placed after its supertype
    when it has one. *)
Theorem process_order_respects_supertypes (d : DiscourseData) (fuel : nat)
    (order : list str) :
  process_order fuel d = Some (Ok order) ->
  ordered_from d (word_levels d) order
  /\ exists rest, order = word_levels d ++ rest.
Proof.
  intros H.
  assert (Ho : ordered_from d (word_levels d) order).
  { apply (process_order_loop_ordered d (word_levels d) fuel (word_levels d) order);
      [constructor | exact H]. }
  split; [exact Ho | now apply (ordered_from_prefix d)].
Qed.

Lemma process_order_respects_supertypes_witness :
  ordered_from three_levels (word_levels three_levels)
    [s_ "word"; s_ "syllable"; s_ "morpheme"]
  /\ exists rest, [s_ "word"; s_ "syllable"; s_ "morpheme"]
                  = word_levels three_levels ++ rest.
Proof.
  apply (process_order_respects_supertypes three_levels 4).
  vm_compute. reflexivity.
Defined.

(** *** The constructor and the mapping *)

Lemma dict_set_In {V} (k k' : str) (v v' : V) (d : dict V) :
  In (k', v') (dict_set k v d) -> (k' = k /\ v' = v) \/ In (k', v') d.
Proof.
  induction d as [|[k2 v2] d IH]; simpl.
  - intros [H|[]]. injection H as <- <-. now left.
  - destruct (str_eqb k k2) eqn:E.
    + apply str_eqb_eq in E. subst k2. intros [H|H].
      * injection H as <- <-. now left.
      * right. now right.
    + intros [H|H]; [right; now left|].
      destruct (IH H) as [?|?]; [now left | right; now right].
Qed.

Lemma dict_set_keys {V} (k : str) (v : V) (d : dict V) :
  keys (dict_set k v d) = if str_in k (keys d) then keys d else keys d ++ [k].
Proof.
  unfold keys, str_in. induction d as [|[k2 v2] d IH]; simpl; [reflexivity|].
  destruct (str_eqb k k2) eqn:E; simpl.
  - apply str_eqb_eq in E. now subst.
  - rewrite IH. now destruct (existsb (str_eqb k) (map fst d)).
Qed.

Lemma dict_set_NoDup {V} (k : str) (v : V) (d : dict V) :
  List.NoDup (keys d) -> List.NoDup (keys (dict_set k v d)).
Proof.
  intros N. rewrite dict_set_keys. destruct (str_in k (keys d)) eqn:E; [exact N|].
  apply str_in_not_In in E. apply List.NoDup_app; [exact N | repeat constructor; intros []|].
  intros x Hx [<-|[]]. exact (E Hx).
Qed.

Lemma dict_get_None {V} (k : str) (d : dict V) :
  dict_get k d = None <-> ~ In k (keys d).
Proof.
  unfold keys. induction d as [|[k2 v2] d IH]; simpl; [tauto|].
  destruct (str_eqb k k2) eqn:E.
  - apply str_eqb_eq in E. subst. split; [discriminate | tauto].
  - apply str_eqb_neq in E. rewrite IH. split; [intros H [H'|H']; congruence | tauto].
Qed.

Lemma init_fold_spec (levels : list AnnotationType) :
  forall acc : dict AnnotationType,
  List.NoDup (keys acc) ->
  (forall k v, In (k, v) acc -> at_name v = k) ->
  let d := fold_left (fun d x => dict_set (at_name x) x d) levels acc in
  List.NoDup (keys d)
  /\ (forall k v, In (k, v) d -> at_name v = k /\ (In v levels \/ In (k, v) acc))
  /\ (forall k, In k (keys acc) -> In k (keys d))
  /\ (forall l1 x l2, levels = l1 ++ x :: l2 ->
        (forall y, In y l2 -> at_name y <> at_name x) ->
        dict_get (at_name x) d = Some x).
Proof.
  induction levels as [|x levels IH]; intros acc N A; simpl.
  - split; [exact N|]. split; [intros k v H; split; [now apply A | now right]|].
    split; [auto|]. intros [|? ?] ? ? E; discriminate E.
  - assert (N1 : List.NoDup (keys (dict_set (at_name x) x acc))) by now apply dict_set_NoDup.
    assert (A1 : forall k v, In (k, v) (dict_set (at_name x) x acc) -> at_name v = k).
    { intros k v H. apply dict_set_In in H as [[-> ->]|H]; [reflexivity | now apply A]. }
    destruct (IH _ N1 A1) as [Nd [Ad [Kd Ld]]]. split; [exact Nd|]. split; [|split].
    + intros k v H. destruct (Ad k v H) as [E [H'|H']]; split; auto.
      apply dict_set_In in H' as [[-> ->]|H']; auto.
    + intros k Hk. apply Kd. rewrite dict_set_keys.
      destruct (str_in (at_name x) (keys acc)); [exact Hk | apply in_or_app; now left].
    + intros l1 y l2 E Hy. destruct l1 as [|z l1]; simpl in E.
      * injection E as <- <-.
        assert (G : dict_get (at_name x) (dict_set (at_name x) x acc) = Some x)
          by apply dict_get_set_eq.
        clear - G Hy. revert G. generalize (dict_set (at_name x) x acc) as a.
        induction levels as [|w levels IHw]; intros a G; [exact G|].
        simpl. apply IHw; [intros y Hy'; apply Hy; now right|].
        rewrite dict_get_set_ne; [exact G|]. intros E. apply (Hy w); [now left | now symmetry].
      * injection E as <- ->. now apply (Ld l1 y l2).
Qed.

(** X6: the dict that [DiscourseData.__init__] builds.  Its keys are distinct,
    every key is the name of the tier stored under it, which is one of the
    tiers given, every tier given has its name among the keys, and looking up
    a name yields the last tier given with that name. *)
Theorem DiscourseData_init_data (n : str) (levels : list AnnotationType) :
  let d := DiscourseData_init n levels in
  List.NoDup (keys (data d))
  /\ (forall k v, In (k, v) (data d) -> at_name v = k /\ In v levels)
  /\ (forall x, In x levels -> dict_mem (at_name x) (data d) = true)
  /\ (forall l1 x l2, levels = l1 ++ x :: l2 ->
        (forall y, In y l2 -> at_name y <> at_name x) ->
        dict_get (at_name x) (data d) = Some x).
Proof.
  unfold DiscourseData_init. cbn [data].
  destruct (init_fold_spec levels [] (List.NoDup_nil _) (fun k v H => match H with end))
    as [N [A [_ L]]].
  split; [exact N|]. split; [|split; [|exact L]].
  - intros k v H. destruct (A k v H) as [E [H'|[]]]. auto.
  - intros x Hx. unfold dict_mem.
    destruct (dict_get (at_name x) _) eqn:G; [reflexivity|]. exfalso.
    apply dict_get_None in G. apply G. clear G.
    apply in_split in Hx as [l1 [l2 ->]].
    rewrite fold_left_app. simpl.
    destruct (init_fold_spec l2 (dict_set (at_name x) x
                (fold_left (fun d y => dict_set (at_name y) y d) l1 []))) as [_ [_ [K _]]].
    + apply dict_set_NoDup.
      now destruct (init_fold_spec l1 [] (List.NoDup_nil _) (fun k v H => match H with end)).
    + intros k v H. apply dict_set_In in H as [[-> ->]|H]; [reflexivity|].
      destruct (init_fold_spec l1 [] (List.NoDup_nil _) (fun k v H => match H with end))
        as [_ [A1 _]]. now apply A1.
    + apply K. rewrite dict_set_keys.
      destruct (str_in (at_name x) _) eqn:E; [now apply str_in_In|].
      apply in_or_app. right. now left.
Qed.

Lemma DiscourseData_init_data_witness :
  dict_get (s_ "word")
    (data (DiscourseData_init (s_ "d")
             [plain_tier (s_ "word") false false; plain_tier (s_ "phone") true false;
              plain_tier (s_ "word") true false]))
  = Some (plain_tier (s_ "word") true false).
Proof.
  apply (proj2 (proj2 (proj2 (DiscourseData_init_data (s_ "d")
           [plain_tier (s_ "word") false false; plain_tier (s_ "phone") true false;
            plain_tier (s_ "word") true false])))
           [plain_tier (s_ "word") false false; plain_tier (s_ "phone") true false]
           (plain_tier (s_ "word") true false) []).
  - reflexivity.
  - intros y [].
Defined.

Lemma mapping_fold_spec (D : dict AnnotationType) :
  List.NoDup (keys D) ->
  (forall k v, In (k, v) D -> at_name v = k) ->
  forall (acc : dict Attribute) (k : str),
  dict_get k (fold_left (fun m x => if ignored x then m
                                    else dict_set (at_name x) (attribute x) m)
                (values D) acc)
  = match dict_get k D with
    | Some v => if ignored v then dict_get k acc else Some (attribute v)
    | None => dict_get k acc
    end.
Proof.
  induction D as [|[k0 v0] D IH]; intros N A acc k; [reflexivity|].
  unfold keys in N. simpl in N. apply List.NoDup_cons_iff in N as [Nk N].
  assert (E0 : at_name v0 = k0) by (apply A; now left).
  assert (A' : forall k v, In (k, v) D -> at_name v = k) by (intros; apply A; now right).
  simpl. rewrite (IH N A'). rewrite E0.
  destruct (str_eqb k k0) eqn:E.
  - apply str_eqb_eq in E.
    assert (G : dict_get k D = None) by (apply dict_get_None; rewrite E; exact Nk).
    rewrite G, E. destruct (ignored v0); [reflexivity | apply dict_get_set_eq].
  - apply str_eqb_neq in E.
    assert (G : dict_get k (if ignored v0 then acc else dict_set k0 (attribute v0) acc)
                = dict_get k acc).
    { destruct (ignored v0); [reflexivity | now apply dict_get_set_ne]. }
    rewrite G. reflexivity.
Qed.

(** X7: on a discourse as the constructor builds it, [mapping] sends the name
    of every tier that is not ignored to the attribute of that tier, and has
    no entry for an ignored tier or for a name that is no tier. *)
Theorem mapping_lookup (n : str) (levels : list AnnotationType) (k : str) :
  dict_get k (mapping (DiscourseData_init n levels))
  = match dict_get k (data (DiscourseData_init n levels)) with
    | Some v => if ignored v then None else Some (attribute v)
    | None => None
    end.
Proof.
  destruct (init_fold_spec levels [] (List.NoDup_nil _) (fun k v H => match H with end))
    as [N [A _]].
  unfold mapping, DiscourseData_init. cbn [data].
  rewrite mapping_fold_spec; [reflexivity | exact N|].
  intros k' v H. now apply A.
Qed.

Lemma flat_map_nil {A B} (f : A -> list B) (l : list A) :
  (forall x, In x l -> f x = []) -> flat_map f l = [].
Proof.
  induction l as [|x l IH]; intros H; [reflexivity|].
  simpl. rewrite (H x (or_introl eq_refl)). apply IH. intros y Hy. apply H. now right.
Qed.

(** X8: on a discourse in which no tier has a speaker, [collapse_speakers]
    returns and leaves the discourse without any tier: the tiers without
    speaker are in no speaker's group and are not carried over. *)
Theorem collapse_speakers_without_speaker (d : DiscourseData) :
  (forall k t, In (k, t) (data d) -> speaker t = None) ->
  collapse_speakers d = Ok (mkDiscourseData (dd_name d) [] (wav_path d)).
Proof.
  intros H. unfold collapse_speakers.
  assert (E : merge_keys d = []).
  { unfold merge_keys.
    rewrite (flat_map_nil (fun x => match speaker x with Some s => [s] | None => [] end)
               (values (data d))); [reflexivity|].
    intros t Ht. unfold values in Ht. apply in_map_iff in Ht as [[k t'] [<- Hin]].
    simpl. now rewrite (H k t' Hin). }
  rewrite E. reflexivity.
Qed.

Lemma collapse_speakers_without_speaker_witness :
  collapse_speakers no_speaker
  = Ok (mkDiscourseData (dd_name no_speaker) [] (wav_path no_speaker)).
Proof.
  apply (collapse_speakers_without_speaker no_speaker).
  intros k t H. apply (in_map snd) in H.
  change (map snd (data no_speaker)) with (values (data no_speaker)) in H.
  assert (F : forallb (fun x => match speaker x with None => true | Some _ => false end)
                (values (data no_speaker)) = true) by (vm_compute; reflexivity).
  rewrite forallb_forall in F. specialize (F _ H). simpl in F.
  destruct (speaker t); [discriminate F | reflexivity].
Defined.

(** ** AnnotationType *)

Lemma add_frame (anns : list item) (save : bool) :
  forall t,
  at_name (add t anns save) = at_name t
  /\ output_name (add t anns save) = output_name t
  /\ supertype (add t anns save) = supertype t
  /\ subtype (add t anns save) = subtype t
  /\ base (add t anns save) = base t
  /\ token (add t anns save) = token t
  /\ anchor (add t anns save) = anchor t
  /\ speaker (add t anns save) = speaker t
  /\ attribute (add t anns save) = attribute t.
Proof.
  induction anns as [|a anns IH]; intros t; simpl; [repeat split|].
  destruct (IH (set_list t (set_update (characters t) (iter_item a))
                  (if save || (length (_list t) <? 10) then _list t ++ [a] else _list t)))
    as [H1 [H2 [H3 [H4 [H5 [H6 [H7 [H8 H9]]]]]]]].
  repeat split; assumption.
Qed.

Lemma add_characters (anns : list item) :
  forall t t' save save',
  characters t = characters t' ->
  characters (add t anns save) = characters (add t' anns save').
Proof.
  induction anns as [|a anns IH]; intros t t' save save' E; simpl; [exact E|].
  apply IH. simpl. now rewrite E.
Qed.

Lemma add_save_list (anns : list item) :
  forall t, _list (add t anns true) = _list t ++ anns.
Proof.
  induction anns as [|a anns IH]; intros t; simpl; [now rewrite app_nil_r|].
  rewrite IH. simpl. now rewrite <- app_assoc.
Qed.

Lemma add_preview_list (anns : list item) :
  forall t, _list (add t anns false) = _list t ++ firstn (10 - length (_list t)) anns.
Proof.
  induction anns as [|a anns IH]; intros t; simpl.
  - now rewrite firstn_nil, app_nil_r.
  - rewrite IH. simpl. destruct (Nat.ltb_spec (length (_list t)) 10) as [L|L].
    + rewrite length_app. simpl.
      replace (10 - length (_list t)) with (S (10 - (length (_list t) + 1))) by lia.
      simpl. now rewrite <- app_assoc.
    + replace (10 - length (_list t)) with 0 by lia. reflexivity.
Qed.

(** X9: [AnnotationType.add].  With [save] the annotations are appended to
    the tier in order; without it only as many are appended as bring the tier
    to ten annotations.  The characters recorded are the same in both cases,
    and nothing else of the tier changes. *)
Theorem add_list (t : AnnotationType) (anns : list item) :
  _list (add t anns true) = _list t ++ anns
  /\ _list (add t anns false) = _list t ++ firstn (10 - length (_list t)) anns
  /\ characters (add t anns false) = characters (add t anns true)
  /\ (forall save, at_name (add t anns save) = at_name t
                   /\ output_name (add t anns save) = output_name t
                   /\ supertype (add t anns save) = supertype t
                   /\ base (add t anns save) = base t
                   /\ token (add t anns save) = token t
                   /\ anchor (add t anns save) = anchor t
                   /\ speaker (add t anns save) = speaker t
                   /\ attribute (add t anns save) = attribute t).
Proof.
  split; [apply add_save_list|]. split; [apply add_preview_list|].
  split; [now apply add_characters|].
  intros save. destruct (add_frame anns save t) as [H1 [H2 [H3 [H4 [H5 [H6 [H7 [H8 H9]]]]]]]].
  repeat split; assumption.
Qed.

(** *** The name of a tier without its speaker *)

Lemma take_nonword_app (w rest : str) :
  (forall c, In c w -> is_word c = false) ->
  (rest = [] \/ exists c r, rest = c :: r /\ is_word c = true) ->
  take_nonword (w ++ rest) = w.
Proof.
  intros Hw Hr. induction w as [|x w IH]; simpl.
  - destruct Hr as [->|[c [r [-> Hc]]]]; simpl; [reflexivity | now rewrite Hc].
  - rewrite (Hw x (or_introl eq_refl)). f_equal. apply IH.
    intros c Hc. apply Hw. now right.
Qed.

Lemma strip_speaker_skip (sp x : str) :
  forall y, strip_speaker sp (length x) (x ++ y) = strip_speaker sp 0 y.
Proof. induction x as [|c x IH]; intros y; simpl; [now destruct y | apply IH]. Qed.

Lemma strip_speaker_nod (sp rest : str) :
  sp <> [] -> nod sp rest -> strip_speaker sp 0 rest = rest.
Proof.
  intros N. induction rest as [|c r IH]; intros H; [reflexivity|].
  simpl. rewrite (H 0 : is_prefix sp (c :: r) = false). f_equal.
  apply IH. intros j. apply (H (S j)).
Qed.

Lemma strip_speaker_0 (sp : str) (c : ascii) (r : str) :
  strip_speaker sp 0 (c :: r)
  = if is_prefix sp (c :: r) then
      match length sp + length (take_nonword (skipn (length sp) (c :: r))) with
      | S n => strip_speaker sp n r
      | 0 => c :: strip_speaker sp 0 r
      end
    else c :: strip_speaker sp 0 r.
Proof. reflexivity. Qed.

Lemma skipn_length_app {A} (x y : list A) : skipn (length x) (x ++ y) = y.
Proof. induction x as [|a x IH]; [reflexivity | exact IH]. Qed.

Lemma strip_speaker_prefix (sp w rest : str) :
  sp <> [] ->
  (forall c, In c w -> is_word c = false) ->
  (rest = [] \/ exists c r, rest = c :: r /\ is_word c = true) ->
  nod sp rest ->
  strip_speaker sp 0 (sp ++ w ++ rest) = rest.
Proof.
  intros N Hw Hr Hn. destruct sp as [|x sp]; [congruence|].
  change ((x :: sp) ++ w ++ rest) with (x :: (sp ++ w ++ rest)).
  rewrite strip_speaker_0.
  assert (P : is_prefix (x :: sp) (x :: (sp ++ w ++ rest)) = true)
    by apply (is_prefix_app (x :: sp) (w ++ rest)).
  assert (K : skipn (length (x :: sp)) (x :: (sp ++ w ++ rest)) = w ++ rest)
    by apply (skipn_length_app (x :: sp) (w ++ rest)).
  rewrite P, K, (take_nonword_app w rest Hw Hr).
  change (length (x :: sp) + length w) with (S (length sp + length w)).
  cbv iota.
  replace (length sp + length w) with (length (sp ++ w)) by apply length_app.
  rewrite app_assoc. rewrite strip_speaker_skip.
  now apply strip_speaker_nod.
Qed.

(** X10: the output name of a tier with a speaker.  When the name of the
    tier is the speaker, then characters that are no word characters, then a
    rest in which the speaker does not occur and that is empty or starts with
    a word character, [AnnotationType.__init__] sets [output_name] to that
    rest (the speaker being read literally by the pattern); the tier keeps its
    full name, and its attribute is named by the sanitized full name. *)
Theorem AnnotationType_init_output_name (sp w rest : str) (sub super : option str)
    (b : bool) :
  sp <> [] -> regex_literal sp = true ->
  (forall c, In c w -> is_word c = false) ->
  (rest = [] \/ exists c r, rest = c :: r /\ is_word c = true) ->
  nod sp rest ->
  exists t,
    AnnotationType_init (sp ++ w ++ rest) sub super
      [("base", ABool b); ("speaker", AStr (Some sp))]%string = Ok t
    /\ output_name t = rest
    /\ at_name t = sp ++ w ++ rest
    /\ speaker t = Some sp
    /\ name (attribute t) = sanitize_name (sp ++ w ++ rest)
    /\ att_kind (attribute t) = (if b then tier else spelling).
Proof.
  intros N L Hw Hr Hn. unfold AnnotationType_init. cbn [find fst existsb negb].
  cbn -[strip_speaker sanitize_name Attribute_init regex_literal]. rewrite L.
  rewrite (strip_speaker_prefix sp w rest N Hw Hr Hn).
  destruct b; cbn -[sanitize_name]; eexists; (split; [reflexivity|]); repeat split.
Qed.

Lemma AnnotationType_init_output_name_witness :
  exists t,
    AnnotationType_init (s_ "A" ++ s_ " - " ++ s_ "phones") None None
      [("base", ABool true); ("speaker", AStr (Some (s_ "A")))]%string = Ok t
    /\ output_name t = s_ "phones"
    /\ at_name t = s_ "A" ++ s_ " - " ++ s_ "phones"
    /\ speaker t = Some (s_ "A")
    /\ name (attribute t) = sanitize_name (s_ "A" ++ s_ " - " ++ s_ "phones")
    /\ att_kind (attribute t) = (if true then tier else spelling).
Proof.
  apply (AnnotationType_init_output_name (s_ "A") (s_ " - ") (s_ "phones") None None true).
  - discriminate.
  - reflexivity.
  - intros c [<-|[<-|[<-|[]]]]; reflexivity.
  - right. eexists. eexists. split; reflexivity.
  - intros j. do 6 (destruct j as [|j]; [reflexivity|]). simpl. destruct j; reflexivity.
Defined.

(** *** Adding annotations to the tiers of a discourse *)





(** ** Attribute *)

(** X12: the shape of the range.  The constructor builds an attribute whose
    range has the shape of its type, and [update_range], whenever it returns,
    keeps it so; on such an attribute [update_range] raises nothing but
    [TypeError]. *)
Theorem range_shape_kept :
  (forall n t display default a,
     Attribute_init n t display default = Ok a ->
     shape_ok a /\ name a = n /\ att_kind a = t)
  /\ (forall py_float a v a',
        shape_ok a -> update_range py_float a v = Ok a' -> shape_ok a')
  /\ (forall py_float a v e,
        shape_ok a -> update_range py_float a v = Raise e -> exists m, e = TypeError m).
Proof.
  split; [|split].
  - intros n t display default a H. destruct t; simpl in H.
    + injection H as <-. repeat split.
    + injection H as <-. repeat split.
    + injection H as <-. unfold shape_ok. simpl. repeat split. lra.
    + apply bind_ok in H as [r [Hr H]]. injection H as <-.
      unfold shape_ok. simpl. split; [|split; reflexivity].
      destruct (truthy default); [|now injection Hr as <-].
      unfold singleton_set in Hr. destruct (hashable default); [|discriminate].
      now injection Hr as <-.
  - intros py_float a v a' S H. unfold update_range in H.
    assert (W : forall x, widen a x = Ok a' -> att_kind a = numeric -> shape_ok a').
    { intros x Hw K. unfold shape_ok in S. rewrite K in S.
      destruct (_range a) as [|lo hi|l] eqn:R; try contradiction.
      destruct (widen_spec a lo hi x R S) as [E L]. rewrite E in Hw. injection Hw as <-.
      unfold shape_ok. simpl. rewrite K. exact L. }
    destruct v as [|q|s|l]; [now injection H as <-|..];
      (destruct (att_kind a) eqn:K;
       [now injection H as <- | | |]).
    all: unfold shape_ok in S; rewrite K in S.
    all: destruct (_range a) as [|lo hi|l0] eqn:R; try contradiction.
    all: try (simpl in H; discriminate H).
    all: try (simpl in H; injection H as <-; unfold shape_ok; simpl; rewrite K; exact I).
    + apply (W q H eq_refl).
    + destruct (py_float s) as [x|]; [apply (W x H eq_refl)|].
      injection H as <-. exact I.
  - intros py_float a v e S H. unfold update_range in H.
    assert (W : forall x, widen a x = Raise e -> att_kind a = numeric -> False).
    { intros x Hw K. unfold shape_ok in S. rewrite K in S.
      destruct (_range a) as [|lo hi|l] eqn:R; try contradiction.
      destruct (widen_spec a lo hi x R S) as [E _]. congruence. }
    destruct v as [|q|s|l]; [discriminate H|..];
      (destruct (att_kind a) eqn:K; [discriminate H | | |]).
    all: unfold shape_ok in S; rewrite K in S.
    all: destruct (_range a) as [|lo hi|l0] eqn:R; try contradiction.
    all: try (simpl in H; discriminate H).
    all: try (simpl in H; injection H as <-; eauto).
    + destruct (W q H eq_refl).
    + destruct (py_float s) as [x|]; [destruct (W x H eq_refl) | discriminate H].
Qed.

Lemma range_shape_kept_witness :
  shape_ok fresh_numeric
  /\ update_range (fun _ => None) fresh_numeric (VNum 5)
     = Ok (set_range fresh_numeric (RPair 0 5))
  /\ shape_ok (set_range fresh_numeric (RPair 0 5)).
Proof.
  assert (S : shape_ok fresh_numeric) by (unfold shape_ok; simpl; lra).
  split; [exact S|]. split; [reflexivity|].
  apply (proj1 (proj2 range_shape_kept) (fun _ => None) fresh_numeric (VNum 5));
    [exact S | reflexivity].
Defined.

(** ** Annotation *)

Lemma str_eqb_sym (a b : str) : str_eqb a b = str_eqb b a.
Proof.
  destruct (str_eqb a b) eqn:E; symmetry.
  - apply str_eqb_eq in E. subst. apply str_eqb_refl.
  - apply str_eqb_neq. apply str_eqb_neq in E. congruence.
Qed.

Lemma dict_get_app {V} (k : str) (d d' : dict V) :
  dict_get k (d ++ d')
  = match dict_get k d with Some v => Some v | None => dict_get k d' end.
Proof.
  induction d as [|[k2 v2] d IH]; simpl; [reflexivity|].
  destruct (str_eqb k k2); [reflexivity | exact IH].
Qed.

(** The lookup reads the three lists as one dict, as long as they have the
    same length. *)
Lemma getitem_from_combine (refs : list str) :
  forall (bs es : list Z) (key : str),
  length bs = length refs -> length es = length refs ->
  getitem_from refs bs es key = Ok (dict_get key (combine refs (combine bs es))).
Proof.
  induction refs as [|r refs IH]; intros [|b bs] [|e es] key Lb Le;
    try discriminate; simpl; [reflexivity|].
  rewrite (str_eqb_sym r key). destruct (str_eqb key r); [reflexivity|].
  apply IH; simpl in *; lia.
Qed.

Lemma combine_snoc {A B} (l : list A) (l' : list B) (x : A) (y : B) :
  length l = length l' -> combine (l ++ [x]) (l' ++ [y]) = combine l l' ++ [(x, y)].
Proof.
  revert l'; induction l as [|a l IH]; intros [|b l'] L; try discriminate;
    simpl; [reflexivity|].
  f_equal. apply IH. simpl in L. lia.
Qed.

Lemma annotation_kwargs_spec (kwargs : dict kwarg) :
  List.NoDup (keys kwargs) ->
  forall (a a' : Annotation) (extra extra' : dict value),
  annotation_kwargs kwargs a extra = Ok (a', extra') ->
  length (begins a) = length (references a) ->
  length (ends a) = length (references a) ->
  ann_label a' = ann_label a
  /\ length (begins a') = length (references a')
  /\ length (ends a') = length (references a')
  /\ forall key,
       dict_get key (combine (references a') (combine (begins a') (ends a')))
       = match dict_get key (combine (references a) (combine (begins a) (ends a))) with
         | Some p => Some p
         | None => bounds_of (dict_get key kwargs)
         end.
Proof.
  induction kwargs as [|[k [l|v]] r IH]; intros N a a' extra extra' H Lb Le.
  - injection H as <- _. repeat split; try assumption.
    intros key. simpl. now destruct (dict_get key _).
  - unfold keys in N. simpl in N. apply List.NoDup_cons_iff in N as [_ N].
    cbn [annotation_kwargs] in H.
    apply bind_ok in H as [b [Hb H]]. apply bind_ok in H as [e [He H]].
    apply list_item_ok in Hb, He.
    destruct l as [|b0 [|e0 l]]; try discriminate.
    injection Hb as <-. injection He as <-.
    destruct (IH N _ _ _ _ H) as [I1 [I2 [I3 I4]]];
      [cbn [begins references]; rewrite !length_app; simpl; lia
      |cbn [ends references]; rewrite !length_app; simpl; lia|].
    cbn [ann_label begins ends references] in *.
    repeat split; try assumption.
    intros key. rewrite I4.
    rewrite (combine_snoc (begins a) (ends a)) by lia.
    rewrite combine_snoc by (rewrite length_combine; lia).
    rewrite dict_get_app. cbn [combine dict_get bounds_of].
    destruct (dict_get key (combine (references a) (combine (begins a) (ends a))));
      [reflexivity|].
    destruct (str_eqb key k); reflexivity.
  - unfold keys in N. simpl in N. apply List.NoDup_cons_iff in N as [Nk N].
    cbn [annotation_kwargs] in H. apply bind_ok in H as [extra1 [_ H]].
    assert (G : forall key, bounds_of (dict_get key ((k, KOther v) :: r))
                            = bounds_of (dict_get key r)).
    { intros key. cbn [dict_get]. destruct (str_eqb key k) eqn:E; [|reflexivity].
      apply str_eqb_eq in E. subst key.
      apply (dict_get_None k r) in Nk. rewrite Nk. reflexivity. }
    destruct (IH N _ _ _ _ H Lb Le) as [I1 [I2 [I3 I4]]].
    repeat split; try assumption. intros key. rewrite I4, G. reflexivity.
Qed.

(** What the loop raises, when no value replaces one of its lists. *)
Lemma annotation_kwargs_raise (kwargs : dict kwarg) :
  (forall k v, In (k, KOther v) kwargs -> str_in k annotation_fields = false) ->
  forall (a : Annotation) (extra : dict value) (e : exn),
  annotation_kwargs kwargs a extra = Raise e ->
  (e = IndexError /\ exists k t, In (k, KTuple t) kwargs /\ length t < 2)
  \/ ((exists m, e = TypeError m)
      /\ exists k v, In (k, KOther v) kwargs
                     /\ str_in k [s_ "__class__"; s_ "__dict__"] = true)
  \/ (e = AttributeError "__weakref__"
      /\ exists v, In (s_ "__weakref__", KOther v) kwargs).
Proof.
  induction kwargs as [|[k [l|v]] r IH]; intros R a extra e H; [discriminate H|..];
    cbn [annotation_kwargs] in H.
  - assert (R' : forall k v, In (k, KOther v) r -> str_in k annotation_fields = false)
      by (intros k0 v0 I; apply (R k0 v0); now right).
    destruct l as [|b0 [|e0 l]].
    + injection H as <-. left. split; [reflexivity|].
      exists k, []. split; [now left | simpl; lia].
    + injection H as <-. left. split; [reflexivity|].
      exists k, [b0]. split; [now left | simpl; lia].
    + cbn in H. destruct (IH R' _ _ _ H) as [[E [k0 [t0 [I L]]]]|[[E [k0 [v0 [I S]]]]|[E [v0 I]]]].
      * left. split; [exact E|]. exists k0, t0. split; [now right | exact L].
      * right. left. split; [exact E|]. exists k0, v0. split; [now right | exact S].
      * right. right. split; [exact E|]. exists v0. now right.
  - assert (R' : forall k v, In (k, KOther v) r -> str_in k annotation_fields = false)
      by (intros k0 v0 I; apply (R k0 v0); now right).
    assert (Rk : str_in k annotation_fields = false) by (apply (R k v); now left).
    unfold annotation_setattr in H. rewrite Rk in H.
    destruct (str_in k [s_ "__class__"; s_ "__dict__"]) eqn:C.
    { injection H as <-. right. left. split; [eauto|].
      exists k, v. split; [now left | exact C]. }
    destruct (str_eqb k (s_ "__weakref__")) eqn:W.
    { injection H as <-. apply str_eqb_eq in W. subst k.
      right. right. split; [reflexivity|]. exists v. now left. }
    assert (H' : exists extra1, annotation_kwargs r a extra1 = Raise e).
    { destruct (str_in k [s_ "token"; s_ "additional"]); cbn [mbind res_bind] in H; eauto. }
    destruct H' as [extra1 H'].
    destruct (IH R' _ _ _ H') as [[E [k0 [t0 [I L]]]]|[[E [k0 [v0 [I S]]]]|[E [v0 I]]]].
    + left. split; [exact E|]. exists k0, t0. split; [now right | exact L].
    + right. left. split; [exact E|]. exists k0, v0. split; [now right | exact S].
    + right. right. split; [exact E|]. exists v0. now right.
Qed.

(** X13: the constructor of an annotation and the lookup of a reference,
    for keyword arguments none of which gives [begins], [ends] or
    [references] another value than a tuple.  When
    [Annotation(label, **kwargs)] returns, the annotation has the label, its
    three lists have the same length, and [a[key]] returns the pair of the
    first two members of the tuple given for [key], or None when [key] was
    not given or was given another value than a tuple.  When it raises, it
    raises [IndexError] for a tuple with fewer than two members, [TypeError]
    for a keyword named [self] or [label] or a value given for [__class__]
    or [__dict__], or [AttributeError] for a value given for
    [__weakref__]. *)
Theorem Annotation_getitem_init (l : str) (kwargs : dict kwarg) :
  List.NoDup (keys kwargs) ->
  (forall k v, In (k, KOther v) kwargs -> str_in k annotation_fields = false) ->
  (forall a extra,
     Annotation_init l kwargs = Ok (a, extra) ->
     ann_label a = l
     /\ length (begins a) = length (references a)
     /\ length (ends a) = length (references a)
     /\ forall key, Annotation_getitem a key = Ok (bounds_of (dict_get key kwargs)))
  /\ (forall e,
        Annotation_init l kwargs = Raise e ->
        (e = IndexError /\ exists k t, In (k, KTuple t) kwargs /\ length t < 2)
        \/ ((exists m, e = TypeError m)
            /\ exists k, In k (keys kwargs)
                         /\ str_in k [s_ "self"; s_ "label"; s_ "__class__"; s_ "__dict__"]
                            = true)
        \/ (e = AttributeError "__weakref__" /\ In (s_ "__weakref__") (keys kwargs))).
Proof.
  intros N R. unfold Annotation_init.
  destruct (existsb (fun k => str_in k annotation_parameters) (keys kwargs)) eqn:P.
  - split; [intros a extra H; discriminate H|].
    intros e H. injection H as <-. right. left. split; [eauto|].
    apply existsb_exists in P as [k [I S]]. exists k. split; [exact I|].
    apply str_in_In in S. apply str_in_In.
    destruct S as [<-|[<-|[]]]; simpl; auto.
  - split.
    + intros a extra H.
      destruct (annotation_kwargs_spec kwargs N _ _ _ _ H eq_refl eq_refl)
        as [I1 [I2 [I3 I4]]].
      repeat split; try assumption.
      intros key. unfold Annotation_getitem.
      rewrite (getitem_from_combine _ _ _ key I2 I3), I4. reflexivity.
    + intros e H.
      destruct (annotation_kwargs_raise kwargs R _ _ _ H)
        as [E|[[E [k [v [I S]]]]|[E [v I]]]].
      * now left.
      * right. left. split; [exact E|]. exists k. split.
        -- unfold keys. apply in_map_iff. exists (k, KOther v). now split.
        -- apply str_in_In in S. apply str_in_In.
           destruct S as [<-|[<-|[]]]; simpl; auto.
      * right. right. split; [exact E|].
        unfold keys. apply in_map_iff. exists (s_ "__weakref__", KOther v). now split.
Qed.

Lemma Annotation_getitem_init_witness :
  Annotation_init (s_ "cat") word_kwargs = Ok (word_with_references, [])
  /\ ann_label word_with_references = s_ "cat"
  /\ length (begins word_with_references) = length (references word_with_references)
  /\ length (ends word_with_references) = length (references word_with_references)
  /\ forall key, Annotation_getitem word_with_references key
                 = Ok (bounds_of (dict_get key word_kwargs)).
Proof.
  assert (E : Annotation_init (s_ "cat") word_kwargs = Ok (word_with_references, []))
    by (vm_compute; reflexivity).
  split; [exact E|].
  apply (proj1 (Annotation_getitem_init (s_ "cat") word_kwargs
                  ltac:(unfold word_kwargs, keys; simpl;
                        repeat (constructor; [simpl; intuition discriminate|]);
                        constructor)
                  ltac:(intros k v I; unfold word_kwargs in I; simpl in I;
                        destruct I as [I|[I|[I|[]]]]; try discriminate I;
                        injection I as <- _; reflexivity))
               word_with_references [] E).
Defined.

(** ** The hierarchy that add_discourse stores *)





(** ** Names of attributes *)

Lemma lower_lower (c : ascii) : lower (lower c) = lower c.
Proof. destruct c as [[] [] [] [] [] [] [] []]; vm_compute; reflexivity. Qed.

(** X15: [sanitize_name].  The sanitized name holds only characters that
    [\w] matches and that [lower] leaves as they are, and sanitizing it again
    changes nothing. *)
Theorem sanitize_name_normal (n : str) :
  List.Forall (fun c => is_word c = true /\ lower c = c) (sanitize_name n)
  /\ sanitize_name (sanitize_name n) = sanitize_name n.
Proof.
  unfold sanitize_name.
  assert (F : List.Forall (fun c => is_word c = true /\ lower c = c)
                (List.filter is_word (map lower n))).
  { apply List.Forall_forall. intros c I. apply filter_In in I as [I W].
    split; [exact W|]. apply in_map_iff in I as [c0 [<- _]]. apply lower_lower. }
  split; [exact F|].
  induction (List.filter is_word (map lower n)) as [|c l IH]; [reflexivity|].
  apply List.Forall_cons_iff in F as [[W L] F].
  simpl. rewrite L, W. f_equal. exact (IH F).
Qed.

(** ** The levels of a factor *)









(** ** inspect_directory *)

Lemma file_type_cases (f t : str) :
  file_type f = Some t ->
  t = s_ "textgrid" \/ t = s_ "text" \/ t = s_ "multiple".
Proof.
  unfold file_type.
  destruct (str_eqb _ (s_ ".textgrid")); [intros H; injection H as <-; auto|].
  destruct (str_eqb _ (s_ ".txt")); [intros H; injection H as <-; auto|].
  destruct (str_in _ _); [intros H; injection H as <-; auto | discriminate].
Qed.

Lemma files_of_type_snoc (t f : str) (files : list str) :
  files_of_type t (files ++ [f])
  = files_of_type t files
    ++ (if match file_type f with Some t' => str_eqb t' t | None => false end
        then [f] else []).
Proof. unfold files_of_type. rewrite List.filter_app. reflexivity. Qed.

(** One more file: the counts and the lists are those of the files met so
    far. *)
Lemma count_file_counted (files : list str) (f : str) :
  count_file (counted files) f = Ok (counted (files ++ [f])).
Proof.
  unfold count_file, counted.
  rewrite !(files_of_type_snoc _ f files).
  destruct (file_type f) as [t|] eqn:T.
  - apply file_type_cases in T as [-> | [-> | ->]];
      vm_compute str_eqb; cbn [fst snd];
      unfold dict_item; simpl dict_get; cbn [mbind res_bind];
      simpl dict_set; rewrite ?length_app, ?app_nil_r; cbn [length]; rewrite ?Nat.add_0_r; reflexivity.
  - rewrite !app_nil_r. reflexivity.
Qed.

Lemma count_files_counted (fs : list str) :
  forall files, count_files (counted files) fs = Ok (counted (files ++ fs)).
Proof.
  induction fs as [|f r IH]; intros files; simpl.
  - now rewrite app_nil_r.
  - rewrite count_file_counted. cbn [mbind res_bind].
    rewrite IH, <- app_assoc. reflexivity.
Qed.

Lemma count_walk_counted (walk : list (str * list str * list str)) :
  forall files,
  count_walk (counted files) walk = Ok (counted (files ++ walked_files walk)).
Proof.
  induction walk as [|[[root subdirs] fs] r IH]; intros files; simpl.
  - now rewrite app_nil_r.
  - rewrite count_files_counted. cbn [mbind res_bind].
    rewrite IH, <- app_assoc. reflexivity.
Qed.

(** X17: [inspect_directory] always returns.  The lists it returns hold, per
    type, the files of that type in the order of the walk.  The likely type
    is a type with the most files; among the types with the most files
    'textgrid' comes before 'multiple' and 'multiple' before 'text', so that
    a directory without any such file is taken for 'textgrid'. *)
Theorem inspect_directory_spec (walk : list (str * list str * list str)) :
  exists t,
    inspect_directory walk
    = Ok (t, [(s_ "textgrid", files_of_type (s_ "textgrid") (walked_files walk));
              (s_ "text", files_of_type (s_ "text") (walked_files walk));
              (s_ "multiple", files_of_type (s_ "multiple") (walked_files walk))])
    /\ (t = s_ "textgrid"
        /\ length (files_of_type (s_ "text") (walked_files walk))
           <= length (files_of_type (s_ "textgrid") (walked_files walk))
        /\ length (files_of_type (s_ "multiple") (walked_files walk))
           <= length (files_of_type (s_ "textgrid") (walked_files walk))
        \/ t = s_ "multiple"
           /\ length (files_of_type (s_ "textgrid") (walked_files walk))
              < length (files_of_type (s_ "multiple") (walked_files walk))
           /\ length (files_of_type (s_ "text") (walked_files walk))
              <= length (files_of_type (s_ "multiple") (walked_files walk))
        \/ t = s_ "text"
           /\ length (files_of_type (s_ "textgrid") (walked_files walk))
              < length (files_of_type (s_ "text") (walked_files walk))
           /\ length (files_of_type (s_ "multiple") (walked_files walk))
              < length (files_of_type (s_ "text") (walked_files walk))).
Proof.
  unfold inspect_directory.
  change (fold_left (fun d x => dict_set x 0 d) _ [],
          fold_left (fun d x => dict_set x [] d) _ []) with (counted []).
  rewrite (count_walk_counted walk []). cbn [mbind res_bind app].
  unfold counted. cbn [fst snd values map py_max max_from].
  set (a := length (files_of_type (s_ "textgrid") (walked_files walk))).
  set (b := length (files_of_type (s_ "text") (walked_files walk))).
  set (c := length (files_of_type (s_ "multiple") (walked_files walk))).
  cbn [first_with]. unfold dict_item. simpl dict_get. cbn [mbind res_bind].
  destruct (Nat.ltb_spec a b), (Nat.ltb_spec a c), (Nat.ltb_spec b c);
    try lia;
    repeat match goal with
           | |- context [Nat.eqb ?x ?y] => destruct (Nat.eqb_spec x y); try lia
           end;
    eexists; (split; [reflexivity|]); lia || (try (left; repeat split; lia));
    try (right; left; repeat split; lia); try (right; right; repeat split; lia).
Qed.

(** ** text_to_lines *)

Lemma is_linebreak_space (c : ascii) : is_linebreak c = true -> is_space c = true.
Proof. destruct c as [[] [] [] [] [] [] [] []]; vm_compute; congruence. Qed.

Lemma line_feed_space (c : ascii) : Nat.eqb (code c) 10 = true -> is_space c = true.
Proof. destruct c as [[] [] [] [] [] [] [] []]; vm_compute; congruence. Qed.

Lemma no_space_filter (t : str) :
  no_space t = true -> List.filter (fun c => negb (is_space c)) t = t.
Proof.
  unfold no_space. induction t as [|c t IH]; simpl; [reflexivity|].
  intros H. apply andb_true_iff in H as [H1 H2]. rewrite H1. f_equal. exact (IH H2).
Qed.

(** The words of [str.split()] are not empty, hold no white space, and
    together are the text without its white space. *)
Lemma split_space_go_spec (s : str) :
  forall cur, no_space cur = true ->
  List.Forall (fun w => w <> [] /\ no_space w = true) (split_space_go cur s)
  /\ concat (split_space_go cur s) = cur ++ List.filter (fun c => negb (is_space c)) s.
Proof.
  induction s as [|c r IH]; intros cur N; simpl.
  - destruct cur as [|x cur]; simpl; [split; [constructor | reflexivity]|].
    split; [|now rewrite app_nil_r]. constructor; [|constructor]. split; [discriminate | exact N].
  - destruct (is_space c) eqn:S; simpl.
    + destruct (IH [] eq_refl) as [F C].
      destruct cur as [|x cur]; simpl; [split; assumption|].
      split; [|now rewrite C].
      constructor; [split; [discriminate | exact N] | exact F].
    + assert (N' : no_space (cur ++ [c]) = true).
      { unfold no_space in *. rewrite forallb_app, N. simpl. now rewrite S. }
      destruct (IH _ N') as [F C]. split; [exact F|].
      rewrite C, <- app_assoc. reflexivity.
Qed.

Lemma lstrip_filter (s : str) :
  List.filter (fun c => negb (is_space c)) (lstrip s)
  = List.filter (fun c => negb (is_space c)) s.
Proof.
  induction s as [|c r IH]; simpl; [reflexivity|].
  destruct (is_space c) eqn:S; simpl; [exact IH | now rewrite S].
Qed.

Lemma filter_rev' {A} (f : A -> bool) (l : list A) :
  List.filter f (rev l) = rev (List.filter f l).
Proof.
  induction l as [|x l IH]; simpl; [reflexivity|].
  rewrite List.filter_app, IH. simpl. destruct (f x); simpl; [reflexivity|].
  now rewrite app_nil_r.
Qed.

Lemma strip_filter (s : str) :
  List.filter (fun c => negb (is_space c)) (strip s)
  = List.filter (fun c => negb (is_space c)) s.
Proof.
  unfold strip, rstrip.
  rewrite filter_rev', lstrip_filter, filter_rev', rev_involutive. apply lstrip_filter.
Qed.

Lemma lstrip_nonempty (s : str) :
  lstrip s <> [] -> List.filter (fun c => negb (is_space c)) (lstrip s) <> [].
Proof.
  induction s as [|c r IH]; simpl; [congruence|].
  destruct (is_space c) eqn:S; [exact IH|].
  intros _. simpl. rewrite S. discriminate.
Qed.

Lemma strip_nonempty (s : str) :
  strip s <> [] -> List.filter (fun c => negb (is_space c)) s <> [].
Proof.
  intros H. rewrite <- strip_filter. unfold strip, rstrip in *.
  rewrite filter_rev'. intros E. apply (f_equal (@rev ascii)) in E.
  rewrite rev_involutive in E. simpl in E.
  apply lstrip_nonempty in E; [exact E|].
  intros E'. apply H. now rewrite E'.
Qed.

Lemma strip_empty (s : str) :
  strip s = [] -> List.filter (fun c => negb (is_space c)) s = [].
Proof. intros H. rewrite <- strip_filter, H. reflexivity. Qed.

(** The lines of [str.splitlines] are the text without its line ends, which
    are white space. *)
Lemma splitlines_go_filter (s : str) :
  forall cur after_cr,
  List.filter (fun c => negb (is_space c)) (concat (splitlines_go cur after_cr s))
  = List.filter (fun c => negb (is_space c)) (cur ++ s).
Proof.
  induction s as [|c r IH]; intros cur after_cr; cbn [splitlines_go].
  - destruct cur; simpl; now rewrite ?app_nil_r.
  - destruct (after_cr && Nat.eqb (code c) 10) eqn:A.
    + apply andb_true_iff in A as [_ A]. apply line_feed_space in A.
      rewrite IH, !List.filter_app. simpl. now rewrite A.
    + destruct (is_linebreak c) eqn:L.
      * apply is_linebreak_space in L. cbn [concat].
        rewrite !List.filter_app, IH. simpl. now rewrite L.
      * rewrite IH, <- app_assoc. reflexivity.
Qed.

Lemma lines_words (lines : list str) :
  concat (concat (map (fun x => split_space (strip x))
                    (List.filter (fun x => negb (str_eqb (strip x) [])) lines)))
  = List.filter (fun c => negb (is_space c)) (concat lines).
Proof.
  induction lines as [|x lines IH]; [reflexivity|].
  cbn [List.filter concat]. rewrite List.filter_app, <- IH.
  destruct (str_eqb (strip x) []) eqn:E; cbn [negb].
  - apply str_eqb_eq, strip_empty in E. now rewrite E.
  - cbn [map concat]. rewrite concat_app. f_equal.
    unfold split_space.
    rewrite (proj2 (split_space_go_spec (strip x) [] eq_refl)).
    apply strip_filter.
Qed.

(** X18: [text_to_lines].  No line of the result is empty, no word of a line
    is empty or holds white space, and the words, in order, are the text
    without its white space. *)
Theorem text_to_lines_words (text : str) :
  List.Forall (fun line => line <> []
                           /\ List.Forall (fun w => w <> [] /\ no_space w = true) line)
    (text_to_lines text)
  /\ concat (concat (text_to_lines text))
     = List.filter (fun c => negb (is_space c)) text.
Proof.
  unfold text_to_lines. split.
  - apply List.Forall_forall. intros line I.
    apply in_map_iff in I as [x [<- I]]. apply filter_In in I as [_ K].
    destruct (split_space_go_spec (strip x) [] eq_refl) as [F C].
    split; [|exact F].
    intros E. unfold split_space in E. rewrite E in C. simpl in C.
    apply negb_true_iff, str_eqb_neq, strip_nonempty in K.
    rewrite strip_filter in C. congruence.
  - rewrite lines_words. unfold splitlines. apply (splitlines_go_filter text [] false).
Qed.

(** ** get_corpora_list *)

(** The first piece of a split at dots is the text before the first dot. *)
Lemma split_dot_first (s : str) :
  exists p ps,
    split_go (s_ ".") 0 s = p :: ps
    /\ ~ In "."%char p
    /\ (s = p \/ exists rest, s = p ++ "."%char :: rest).
Proof.
  induction s as [|c r IH].
  - exists [], []. split; [reflexivity|]. split; [intros [] | now left].
  - destruct IH as [p [ps [E [N S]]]].
    change (split_go (s_ ".") 0 (c :: r))
      with (if ascii_eqb "." c && true then [] :: split_go (s_ ".") 0 r
            else match split_go (s_ ".") 0 r with
                 | p :: ps => (c :: p) :: ps
                 | [] => [[c]]
                 end).
    destruct (ascii_eqb "." c) eqn:D; cbn [andb].
    + apply Ascii.eqb_eq in D. subst c.
      exists [], (split_go (s_ ".") 0 r). split; [reflexivity|].
      split; [intros []|]. right. exists r. reflexivity.
    + rewrite E. exists (c :: p), ps. split; [reflexivity|]. split.
      * intros [Hc|I]; [|exact (N I)].
        unfold ascii_eqb in D. rewrite Hc, Ascii.eqb_refl in D. discriminate.
      * destruct S as [->|[rest ->]]; [now left|]. right. exists rest. reflexivity.
Qed.

(** X20: [get_corpora_list] returns one name per entry of the listing and
    never raises on it; a name holds no dot, and its entry is the name
    itself or the name followed by a dot and more: the name ends at the first
    dot of the entry, not at the last. *)
Theorem get_corpora_list_names (listing : list str) :
  exists corpora,
    get_corpora_list listing = Ok corpora
    /\ Forall2 (fun x n => ~ In "."%char n
                           /\ (x = n \/ exists rest, x = n ++ "."%char :: rest))
         listing corpora.
Proof.
  induction listing as [|x r [corpora [E F]]].
  - exists []. split; [reflexivity | constructor].
  - destruct (split_dot_first x) as [p [ps [Sp [N S]]]].
    exists (p :: corpora). split.
    + cbn [get_corpora_list].
      replace (str_split (s_ ".") x) with (Ok (split_go (s_ ".") 0 x)) by reflexivity.
      cbn [mbind res_bind]. rewrite Sp. unfold list_item. cbn [nth_error mbind res_bind]. rewrite E.
      reflexivity.
    + constructor; [split; assumption | exact F].
Qed.
